(** * Neo4j_RAG: the notebook [neo4j_rag.ipynb] as a program over library calls

    The notebook is a straight-line Python script: it builds client objects,
    calls methods of external libraries and prints results.  Every library
    call is an interaction with the outside world whose answer the script
    cannot predict, so the script is embedded as a tree of calls ([prog])
    that is run against an arbitrary world ([respond]).  Python objects
    built by the script are records holding their constructor arguments. *)

From stdpp Require Import base strings list gmap sorting.
From Stdlib Require Import ZArith.

Local Open Scope string_scope.
Local Open Scope list_scope.
Set Warnings "-register-all".

(** ** Python values and exceptions *)

(** Values that cross the boundary between the script and the libraries. *)
Inductive pyval : Type :=
| PNone
| PBool (b : bool)
| PInt (z : Z)
| PStr (s : string)
| PList (l : list pyval)
| PDict (d : list (string * pyval))
| PObj (cls : string) (attrs : list (string * pyval)).

Inductive exn : Type :=
| KeyError (key : string)
| TypeError (msg : string)
| AttributeError (name : string)
| LibraryError (msg : string).

Inductive result (A : Type) : Type :=
| Returned (a : A)
| Raised (e : exn).
Arguments Returned {A} a.
Arguments Raised {A} e.

Fixpoint assoc (k : string) (d : list (string * pyval)) : option pyval :=
  match d with
  | [] => None
  | (k', v) :: d' => if String.eqb k k' then Some v else assoc k d'
  end.

(** [x[key]] for a string key. *)
Definition getitem (x : pyval) (key : string) : result pyval :=
  match x with
  | PDict d =>
      match assoc key d with
      | Some v => Returned v
      | None => Raised (KeyError key)
      end
  | PNone | PBool _ | PInt _ | PObj _ _ => Raised (TypeError "object is not subscriptable")
  | PStr _ => Raised (TypeError "string indices must be integers")
  | PList _ => Raised (TypeError "list indices must be integers or slices")
  end.

(** [x.name]. *)
Definition getattr (x : pyval) (name : string) : result pyval :=
  match x with
  | PObj _ attrs =>
      match assoc name attrs with
      | Some v => Returned v
      | None => Raised (AttributeError name)
      end
  | _ => Raised (AttributeError name)
  end.

Fixpoint chars (s : string) : list pyval :=
  match s with
  | EmptyString => []
  | String a s' => PStr (String a EmptyString) :: chars s'
  end.

(** The items a [for] loop visits. *)
Definition iter (x : pyval) : result (list pyval) :=
  match x with
  | PList l => Returned l
  | PDict d => Returned (map (fun kv => PStr (fst kv)) d)
  | PStr s => Returned (chars s)
  | PNone | PBool _ | PInt _ | PObj _ _ => Raised (TypeError "object is not iterable")
  end.

(** ** Library objects: records of constructor arguments *)

(** [Neo4jGraph(url=..., username=..., password=...)] *)
Record Neo4jGraph : Type := {
  graph_url : string;
  graph_username : string;
  graph_password : string }.

(** [OllamaEmbeddings(model=...)] *)
Record OllamaEmbeddings : Type := { model : string }.

(** [Neo4jVector.from_existing_graph(...)] *)
Record Neo4jVector : Type := {
  embedding : OllamaEmbeddings;
  vector_url : string;
  vector_username : string;
  vector_password : string;
  index_name : string;
  node_label : string;
  text_node_properties : list string;
  embedding_node_property : string }.

(** [ChatGroq(...)]; a keyword the call omits is [None] and the library's
    default applies. *)
Record ChatGroq : Type := {
  model_name : option string;
  temperature : option Z }.

(** [vector_index.as_retriever()] *)
Record VectorStoreRetriever : Type := { vectorstore : Neo4jVector }.

(** [RetrievalQA.from_chain_type(llm=..., chain_type=..., retriever=...)] *)
Record RetrievalQA : Type := {
  qa_chain_llm : ChatGroq;
  chain_type : string;
  retriever : VectorStoreRetriever }.

(** [GraphCypherQAChain.from_llm(cypher_llm=..., qa_llm=..., graph=..., verbose=...)] *)
Record GraphCypherQAChain : Type := {
  cypher_llm : ChatGroq;
  qa_llm : ChatGroq;
  chain_graph : Neo4jGraph;
  chain_verbose : bool }.

Inductive chain : Type :=
| retrieval_chain (c : RetrievalQA)
| cypher_qa_chain (c : GraphCypherQAChain).

(** A bound method [c.invoke], as stored in a tool. *)
Inductive callable : Type :=
| invoke (c : chain).

(** [Tool(name=..., func=..., description=...)] *)
Record Tool : Type := {
  name : string;
  func : callable;
  description : string }.

(** [PromptTemplate.from_template(template)] *)
Record PromptTemplate : Type := { prompt_template : string }.

(** [create_react_agent(llm=..., tools=..., prompt=..., stop_sequence=...)] *)
Record ReactAgent : Type := {
  agent_llm : ChatGroq;
  agent_tools : list Tool;
  agent_prompt : PromptTemplate;
  stop_sequence : bool }.

(** [AgentExecutor(agent=..., tools=..., verbose=..., max_iterations=...)] *)
Record AgentExecutor : Type := {
  executor_agent : ReactAgent;
  executor_tools : list Tool;
  executor_verbose : bool;
  max_iterations : nat }.

Inductive object : Type :=
| graph_object (g : Neo4jGraph)
| embeddings_object (e : OllamaEmbeddings)
| vector_object (v : Neo4jVector)
| llm_object (c : ChatGroq)
| retriever_object (r : VectorStoreRetriever)
| chain_object (c : chain)
| tool_object (t : Tool)
| prompt_object (p : PromptTemplate)
| agent_object (a : ReactAgent)
| executor_object (x : AgentExecutor).

(** ** Library calls made by the script *)

(** Each constructor is one call expression of the notebook; the answer
    comes from outside. *)
Inductive call : Type :=
| construct (o : object)                                 (* a constructor or factory call *)
| requests_get (url : string)                            (* [requests.get(url)] *)
| response_json (response : pyval)                       (* [response.json()] *)
| graph_query (g : Neo4jGraph) (query : pyval)           (* [g.query(query)] *)
| graph_refresh_schema (g : Neo4jGraph)                  (* [g.refresh_schema()] *)
| similarity_search (v : Neo4jVector) (query : string)   (* [v.similarity_search(query)] *)
| chain_invoke (c : chain) (input : pyval)               (* [c.invoke(input)] *)
| executor_invoke (x : AgentExecutor) (input : pyval)    (* [x.invoke(input)] *)
| environ_setitem (key value : string)                   (* [os.environ[key] = value] *)
| print (args : list pyval).                             (* [print(...)] *)

(** ** Programs *)

(** A script is a tree: it returns, raises, makes a call and continues
    with the call's answer, or runs a block under a handler
    ([try: body / except Exception as e: handler]) and continues with the
    value either of them left.  [C] is the type of calls. *)
Inductive prog (C A : Type) : Type :=
| Return (a : A)
| Throw (e : exn)
| Call (c : C) (k : pyval -> prog C A)
| Try (body : prog C pyval) (handler : exn -> prog C pyval) (k : pyval -> prog C A).
Arguments Return {C A} a.
Arguments Throw {C A} e.
Arguments Call {C A} c k.
Arguments Try {C A} body handler k.

Fixpoint prog_bind {C A B : Type} (k : A -> prog C B) (p : prog C A) : prog C B :=
  match p with
  | Return a => k a
  | Throw e => Throw e
  | Call c k' => Call c (fun v => prog_bind k (k' v))
  | Try body handler k' => Try body handler (fun v => prog_bind k (k' v))
  end.

Notation "'do' x <- p ; k" := (prog_bind (fun x => k) p)
  (at level 10, x name, p at level 100, k at level 200).
Notation "'do_' p ; k" := (prog_bind (fun _ => k) p)
  (at level 10, p at level 100, k at level 200).

(** A call whose answer is used. *)
Definition ask {C : Type} (c : C) : prog C pyval := Call c (fun v => Return v).

(** A Python operation of the script itself. *)
Definition lift {C A : Type} (r : result A) : prog C A :=
  match r with
  | Returned a => Return a
  | Raised e => Throw e
  end.

Fixpoint for_each {C : Type} (items : list pyval) (body : pyval -> prog C unit) : prog C unit :=
  match items with
  | [] => Return tt
  | i :: rest => do_ body i; for_each rest body
  end.

(** A constructor call: the script keeps the object it described. *)
Definition new {A : Type} (wrap : A -> object) (a : A) : prog call A :=
  Call (construct (wrap a)) (fun _ => Return a).

(** One logged call: what was called and how it ended. *)
Record run_result (W C A : Type) : Type := {
  outcome : result A;
  trace : list (C * result pyval);
  final : W }.
Arguments outcome {W C A} r.
Arguments trace {W C A} r.
Arguments final {W C A} r.

(** Running a program against a world [respond], which answers every call
    and may change while doing so. *)
Fixpoint run {W C A : Type} (respond : W -> C -> result pyval * W)
    (p : prog C A) (w : W) : run_result W C A :=
  match p with
  | Return a => {| outcome := Returned a; trace := []; final := w |}
  | Throw e => {| outcome := Raised e; trace := []; final := w |}
  | Call c k =>
      match respond w c with
      | (Returned v, w') =>
          let r := run respond (k v) w' in
          {| outcome := outcome r; trace := (c, Returned v) :: trace r; final := final r |}
      | (Raised e, w') =>
          {| outcome := Raised e; trace := [(c, Raised e)]; final := w' |}
      end
  | Try body handler k =>
      let b := run respond body w in
      match outcome b with
      | Returned v =>
          let r := run respond (k v) (final b) in
          {| outcome := outcome r; trace := trace b ++ trace r; final := final r |}
      | Raised e =>
          let h := run respond (handler e) (final b) in
          match outcome h with
          | Returned v =>
              let r := run respond (k v) (final h) in
              {| outcome := outcome r;
                 trace := trace b ++ trace h ++ trace r;
                 final := final r |}
          | Raised e' =>
              {| outcome := Raised e'; trace := trace b ++ trace h; final := final h |}
          end
      end
  end.

(** The calls of a trace, and those of them a projection [pi] selects. *)
Definition calls {C : Type} (tr : list (C * result pyval)) : list C := map fst tr.

Definition selected {C X : Type} (pi : C -> option X) (tr : list (C * result pyval)) : list X :=
  omap pi (calls tr).

(** [emits pi xs p]: along every path of [p], the calls selected by [pi]
    are the items of [xs] in order; a path that raises may stop early. *)
Inductive emits {C X A : Type} (pi : C -> option X) : list X -> prog C A -> Prop :=
| emits_return a : emits pi [] (Return a)
| emits_throw xs e : emits pi xs (Throw e)
| emits_hit x xs c k :
    pi c = Some x -> (forall v, emits pi xs (k v)) -> emits pi (x :: xs) (Call c k)
| emits_skip xs c k :
    pi c = None -> (forall v, emits pi xs (k v)) -> emits pi xs (Call c k).

(** [always P p]: every call along every path of [p] satisfies [P]. *)
Inductive always {C A : Type} (P : C -> Prop) : prog C A -> Prop :=
| always_return a : always P (Return a)
| always_throw e : always P (Throw e)
| always_call c k : P c -> (forall v, always P (k v)) -> always P (Call c k).

(** [no_handler p]: the program has no [try] block on any path. *)
Definition no_handler {C A : Type} (p : prog C A) : Prop := always (fun _ => True) p.

(** [extends h' h]: the history [h'] is [h] with more answered calls. *)
Definition extends {C : Type} (h' h : list (C * pyval)) : Prop :=
  exists more, h' = more ++ h.

(** [after R Q h p]: along every path of [p], started once the calls of
    the history [h] (latest first) were answered, each call satisfies [R]
    against the calls answered before it; where [p] returns, [Q] holds of
    the history reached and the value returned. *)
Inductive after {C A : Type} (R : list (C * pyval) -> C -> Prop)
    (Q : list (C * pyval) -> A -> Prop) : list (C * pyval) -> prog C A -> Prop :=
| after_return h a : Q h a -> after R Q h (Return a)
| after_throw h e : after R Q h (Throw e)
| after_call h c k :
    R h c -> (forall v, after R Q ((c, v) :: h) (k v)) -> after R Q h (Call c k).

(** The answered calls of a history, as entries of a trace, oldest first. *)
Definition replay {C : Type} (h : list (C * pyval)) : list (C * result pyval) :=
  map (fun cv => (cv.1, Returned cv.2)) (reverse h).

(** [raises E Q h p]: every exception the program raises by itself, not
    through a call, satisfies [E] against the calls answered until then
    (the history, latest first, started at [h]); where [p] returns, [Q]
    holds of the history reached and the value returned. *)
Inductive raises {C A : Type} (E : list (C * pyval) -> exn -> Prop)
    (Q : list (C * pyval) -> A -> Prop) : list (C * pyval) -> prog C A -> Prop :=
| raises_return h a : Q h a -> raises E Q h (Return a)
| raises_throw h e : E h e -> raises E Q h (Throw e)
| raises_call h c k :
    (forall v, raises E Q ((c, v) :: h) (k v)) -> raises E Q h (Call c k).

(** ** What a call of the script reveals *)

Definition fetch_of (c : call) : option string :=
  match c with requests_get u => Some u | _ => None end.

Definition query_of (c : call) : option (Neo4jGraph * pyval) :=
  match c with graph_query g q => Some (g, q) | _ => None end.

Definition graph_of (c : call) : option Neo4jGraph :=
  match c with construct (graph_object g) => Some g | _ => None end.

Definition vector_of (c : call) : option Neo4jVector :=
  match c with construct (vector_object v) => Some v | _ => None end.


Definition executor_of (c : call) : option AgentExecutor :=
  match c with executor_invoke x _ => Some x | _ => None end.



Definition print_of (c : call) : option (list pyval) :=
  match c with print args => Some args | _ => None end.

(** The objects a call is made on or is given: the receiver of a method,
    the arguments of a constructor. *)
Definition uses (c : call) : list object :=
  match c with
  | construct (vector_object v) => [embeddings_object (embedding v)]
  | construct (retriever_object r) => [vector_object (vectorstore r)]
  | construct (chain_object (retrieval_chain r)) =>
      [llm_object (qa_chain_llm r); retriever_object (retriever r)]
  | construct (chain_object (cypher_qa_chain c')) =>
      [llm_object (cypher_llm c'); llm_object (qa_llm c'); graph_object (chain_graph c')]
  | construct (tool_object t) => match func t with invoke c' => [chain_object c'] end
  | construct (agent_object a) =>
      llm_object (agent_llm a) :: prompt_object (agent_prompt a) ::
      map tool_object (agent_tools a)
  | construct (executor_object x) =>
      agent_object (executor_agent x) :: map tool_object (executor_tools x)
  | construct (graph_object _) | construct (embeddings_object _)
  | construct (llm_object _) | construct (prompt_object _) => []
  | requests_get _ => []
  | response_json _ => []
  | graph_query g _ => [graph_object g]
  | graph_refresh_schema g => [graph_object g]
  | similarity_search v _ => [vector_object v]
  | chain_invoke c' _ => [chain_object c']
  | executor_invoke x _ => [executor_object x]
  | environ_setitem _ _ => []
  | print _ => []
  end.

(** Calls that reach the hosted language model's service, directly or
    through the object they build or invoke. *)
Definition needs_api_key (c : call) : bool :=
  match c with
  | construct (llm_object _) => true
  | chain_invoke _ _ => true
  | executor_invoke _ _ => true
  | _ => false
  end.

(** Calls that read or write what the graph store holds: a direct query,
    or a call that works on the store through the index, a chain or the
    agent. *)
Definition touches_graph (c : call) : bool :=
  match c with
  | graph_query _ _ => true
  | construct (vector_object _) => true
  | similarity_search _ _ => true
  | graph_refresh_schema _ => true
  | chain_invoke _ _ => true
  | executor_invoke _ _ => true
  | _ => false
  end.

(** The connection triple an object was built with. *)
Definition connection : Type := string * string * string.

Definition graph_connection (g : Neo4jGraph) : connection :=
  (graph_url g, graph_username g, graph_password g).

Definition vector_connection (v : Neo4jVector) : connection :=
  (vector_url v, vector_username v, vector_password v).

Definition chain_connection (c : chain) : connection :=
  match c with
  | retrieval_chain r => vector_connection (vectorstore (retriever r))
  | cypher_qa_chain c' => graph_connection (chain_graph c')
  end.

Definition tool_connection (t : Tool) : connection :=
  match func t with invoke c => chain_connection c end.

Definition executor_connections (x : AgentExecutor) : list connection :=
  map tool_connection (executor_tools x) ++
  map tool_connection (agent_tools (executor_agent x)).

(** The graph stores a call can reach, through the object it is made on
    or the objects it is given. *)
Definition connections (c : call) : list connection :=
  match c with
  | construct (graph_object g) => [graph_connection g]
  | construct (vector_object v) => [vector_connection v]
  | construct (retriever_object r) => [vector_connection (vectorstore r)]
  | construct (chain_object c') => [chain_connection c']
  | construct (tool_object t) => [tool_connection t]
  | construct (agent_object a) => map tool_connection (agent_tools a)
  | construct (executor_object x) => executor_connections x
  | construct (embeddings_object _) | construct (llm_object _)
  | construct (prompt_object _) => []
  | requests_get _ => []
  | response_json _ => []
  | graph_query g _ => [graph_connection g]
  | graph_refresh_schema g => [graph_connection g]
  | similarity_search v _ => [vector_connection v]
  | chain_invoke c' _ => [chain_connection c']
  | executor_invoke x _ => executor_connections x
  | environ_setitem _ _ => []
  | print _ => []
  end.

(** The tool the executor picks for a name. *)
Fixpoint find_tool (tool_name : string) (tools : list Tool) : option Tool :=
  match tools with
  | [] => None
  | t :: rest => if String.eqb tool_name (name t) then Some t else find_tool tool_name rest
  end.

(** ** The framework's components, as the specification describes them

    The classes [GraphCypherQAChain], [RetrievalQA], [AgentExecutor] and
    [Neo4jVector] belong to the framework the notebook imports; the
    notebook holds only their calls.  Their behaviour is written here from
    the specification, over the three remote services it names. *)

(** One round of the agent: the tool chosen, its input, what came back. *)
Record step : Type := {
  chosen_tool : string;
  tool_input : pyval;
  observation : pyval }.

(** What is sent to the hosted language model. *)
Inductive llm_prompt : Type :=
| cypher_generation (schema question : pyval)
| cypher_answer (question rows : pyval)
| retrieval_answer (question documents : pyval)
| react (p : PromptTemplate) (tools : list Tool) (input : pyval) (scratchpad : list step).



Inductive service : Type :=
| llm_generate (client : ChatGroq) (p : llm_prompt)
| cypher_execute (g : Neo4jGraph) (query : pyval)
| nearest_neighbours (v : Neo4jVector) (query : pyval).

(** Modelled from the spec: [GraphCypherQAChain.invoke], the
    query-translation wrapper, whose code is the framework's.  It sends the
    question and the graph's schema to the language model to get a graph
    query, executes that query, and asks the model again to phrase the raw
    result; the answer is returned under the key [result], as the
    notebook's outputs show. *)
Definition graph_cypher_qa_invoke (c : GraphCypherQAChain) (schema question : pyval)
    : prog service pyval :=
  do generated <- ask (llm_generate (cypher_llm c) (cypher_generation schema question));
  do rows <- ask (cypher_execute (chain_graph c) generated);
  do answer <- ask (llm_generate (qa_llm c) (cypher_answer question rows));
  Return (PDict [("query", question); ("result", answer)]).

(** Modelled from the spec: [RetrievalQA.invoke], the retrieval
    question-answering wrapper, whose code is the framework's.  It combines
    the vector index's neighbour lookup with one call to the language
    model. *)
Definition retrieval_qa_invoke (c : RetrievalQA) (question : pyval) : prog service pyval :=
  do documents <- ask (nearest_neighbours (vectorstore (retriever c)) question);
  do answer <- ask (llm_generate (qa_chain_llm c) (retrieval_answer question documents));
  Return (PDict [("query", question); ("result", answer)]).

(** What the language model's text asks for, once parsed. *)
Inductive decision : Type :=
| use_tool (tool_name : string) (input : pyval)
| final_answer (output : pyval).

Definition run_tool (schema : pyval) (f : callable) (input : pyval) : prog service pyval :=
  match f with
  | invoke (retrieval_chain c) => retrieval_qa_invoke c input
  | invoke (cypher_qa_chain c) => graph_cypher_qa_invoke c schema input
  end.

(** The specification does not say what the loop returns at the cap, nor
    what is observed when the model names no listed tool; these two values
    stand for whatever the framework produces. *)
Definition stopped : pyval := PStr "Agent stopped due to iteration limit or time limit.".

Definition unknown_tool (tool_name : string) : pyval :=
  PStr (tool_name +:+ " is not a valid tool").

(** Executing the model's choice: the listed tool of that name is run on
    the input; a name that is not listed runs nothing. *)
Definition execute_tool (schema : pyval) (x : AgentExecutor) (tool_name : string)
    (input : pyval) : prog service pyval :=
  match find_tool tool_name (executor_tools x) with
  | Some t => run_tool schema (func t) input
  | None => Return (unknown_tool tool_name)
  end.

(** Modelled from the spec: the loop of [AgentExecutor.invoke], whose code
    is the framework's.  While rounds remain it asks the language model to
    choose a tool and input, executes the tool and feeds the observation
    back through the scratchpad; it stops at a final answer or when
    [max_iterations] rounds are used up.  [parse], the framework's reading
    of the model's text, is a parameter. *)
Fixpoint agent_loop (parse : pyval -> result decision) (schema : pyval)
    (x : AgentExecutor) (input : pyval) (remaining : nat) (scratchpad : list step)
    : prog service pyval :=
  match remaining with
  | 0 => Return stopped
  | S remaining' =>
      do text <- ask (llm_generate (agent_llm (executor_agent x))
                        (react (agent_prompt (executor_agent x))
                               (agent_tools (executor_agent x)) input scratchpad));
      do d <- lift (parse text);
      match d with
      | final_answer output => Return output
      | use_tool tool_name tool_input =>
          do seen <- execute_tool schema x tool_name tool_input;
          agent_loop parse schema x input remaining'
            (scratchpad ++ [{| chosen_tool := tool_name;
                               tool_input := tool_input;
                               observation := seen |}])
      end
  end.

Definition agent_executor_invoke (parse : pyval -> result decision) (schema : pyval)
    (x : AgentExecutor) (input : pyval) : prog service pyval :=
  do output <- agent_loop parse schema x input (max_iterations x) [];
  Return (PDict [("input", input); ("output", output)]).


(** The scratchpad length of an action-selection request: the number of
    rounds already fed back. *)
Definition round_of (c : service) : option nat :=
  match c with
  | llm_generate _ (react _ _ _ scratchpad) => Some (length scratchpad)
  | _ => None
  end.

(** ** The graph store and its vector index *)

Module Index.
Section Store.
(** Embedding vectors and the index's distance are the services' own;
    they are parameters here. *)
Context {V : Type}.
Variable embed : OllamaEmbeddings -> string -> V.
Variable distance : V -> V -> Z.

Inductive property : Type :=
| text_property (s : string)
| vector_property (v : V).

Record node : Type := {
  labels : list string;
  properties : gmap string property }.

Definition property_text (n : node) (key : string) : string :=
  match properties n !! key with
  | Some (text_property s) => s
  | _ => EmptyString
  end.

Definition newline : string := String (Ascii.ascii_of_nat 10) EmptyString.

(** The text of a node, one line per property, as the documents printed
    by the notebook show it. *)
Fixpoint node_text (keys : list string) (n : node) : string :=
  match keys with
  | [] => EmptyString
  | key :: rest =>
      newline +:+ key +:+ ": " +:+ property_text n key +:+ node_text rest n
  end.

Definition embed_node (v : Neo4jVector) (n : node) : node :=
  if decide (node_label v ∈ labels n) then
    {| labels := labels n;
       properties :=
         <[embedding_node_property v :=
             vector_property (embed (embedding v) (node_text (text_node_properties v) n))]>
           (properties n) |}
  else n.

(** Modelled from the spec: [Neo4jVector.from_existing_graph], the vector
    index adapter's constructor, whose code is the vector-index library's.
    For every node carrying the configured label an embedding of the
    node's configured text properties is computed and persisted in the
    configured node property. *)
Definition from_existing_graph (v : Neo4jVector) (store : gmap nat node) : gmap nat node :=
  embed_node v <$> store.

(** What the index holds for a node: its stored embedding and its text. *)
Definition indexed (v : Neo4jVector) (n : node) : option (V * string) :=
  if decide (node_label v ∈ labels n) then
    match properties n !! embedding_node_property v with
    | Some (vector_property e) => Some (e, node_text (text_node_properties v) n)
    | _ => None
    end
  else None.

Definition candidates (v : Neo4jVector) (store : gmap nat node) : list (V * string) :=
  omap (indexed v) (map snd (map_to_list store)).

Definition closer (q : V) (a b : V * string) : Prop :=
  (distance q a.1 <= distance q b.1)%Z.

#[global] Instance closer_dec (q : V) : RelDecision (closer q) :=
  fun a b => decide (distance q a.1 <= distance q b.1)%Z.

Definition ranked (v : Neo4jVector) (store : gmap nat node) (query : string)
    : list (V * string) :=
  merge_sort (closer (embed (embedding v) query)) (candidates v store).

(** Modelled from the spec: [Neo4jVector.similarity_search], the
    nearest-neighbour lookup the adapter exposes, whose code is the
    vector-index library's: the texts of the [k] indexed nodes whose stored
    embeddings are nearest to the embedding of the query. *)
Definition similarity_search (v : Neo4jVector) (store : gmap nat node) (query : string)
    (k : nat) : list string :=
  map snd (take k (ranked v store query)).

End Store.
End Index.

(** ** Sample worlds *)

(** A world in which every call succeeds: the dataset document carries a
    query and a note, the similarity search finds one document. *)
Definition sample_response : pyval :=
  PObj "Response" [("status_code", PInt 200)].

Definition sample_document : pyval :=
  PDict [("query", PStr "CREATE (t:Task {name: 'Update'})"); ("note", PStr "sample")].

Definition sample_respond (w : unit) (c : call) : result pyval * unit :=
  match c with
  | requests_get _ => (Returned sample_response, w)
  | response_json _ => (Returned sample_document, w)
  | similarity_search _ _ =>
      (Returned (PList [PObj "Document" [("page_content", PStr "name: Update")]]), w)
  | _ => (Returned PNone, w)
  end.

(** A world whose dataset document has no query. *)
Definition keyless_respond (w : unit) (c : call) : result pyval * unit :=
  match c with
  | requests_get _ => (Returned sample_response, w)
  | response_json _ => (Returned (PDict [("note", PStr "sample")]), w)
  | _ => (Returned PNone, w)
  end.

(** A world without network: the fetch raises. *)
Definition offline_respond (w : unit) (c : call) : result pyval * unit :=
  match c with
  | requests_get _ => (Raised (LibraryError "connection refused"), w)
  | _ => (Returned PNone, w)
  end.

(** A small store: one task and one team.  Embeddings are text lengths
    and the distance is their difference. *)
Definition sample_embed (m : OllamaEmbeddings) (text : string) : nat := String.length text.

Definition sample_distance (a b : nat) : Z := Z.abs (Z.of_nat a - Z.of_nat b).

Definition sample_task : @Index.node nat :=
  {| Index.labels := ["Task"];
     Index.properties :=
       {[ "name" := Index.text_property "Update";
          "status" := Index.text_property "open" ]} |}.

Definition sample_team : @Index.node nat :=
  {| Index.labels := ["Team"];
     Index.properties := {[ "name" := Index.text_property "TeamA" ]} |}.

Definition sample_store : gmap nat (@Index.node nat) :=
  {[ 1 := sample_task; 2 := sample_team ]}.

(** The placeholder credentials the notebook ships with. *)
Definition source_url : string := "Your neo4j instance URL".
Definition source_password : string := "Your neo4j instance password".
Definition source_groq_api_key : string := "Your Groq API key".

(** A reading of the model's text: the text [final] is a final answer,
    the text [graph] chooses the Graph tool, anything else cannot be
    read. *)
Definition sample_parse (text : pyval) : result decision :=
  match text with
  | PStr "final" => Returned (final_answer (PStr "TeamD is assigned to maintain PaymentService."))
  | PStr "graph" => Returned (use_tool "Graph" (PStr "Which team maintains PaymentService?"))
  | _ => Raised (LibraryError "Could not parse LLM output")
  end.

(** A model that never settles: every action-selection request is
    answered by choosing the Graph tool. *)
Definition undecided_respond (w : unit) (c : service) : result pyval * unit :=
  match c with
  | llm_generate _ (react _ _ _ _) => (Returned (PStr "graph"), w)
  | llm_generate _ _ => (Returned (PStr "text"), w)
  | cypher_execute _ _ => (Returned (PList []), w)
  | nearest_neighbours _ _ => (Returned (PList []), w)
  end.

(** A model that chooses the Graph tool first and answers once it has
    seen an observation. *)
Definition decided_respond (w : unit) (c : service) : result pyval * unit :=
  match c with
  | llm_generate _ (react _ _ _ []) => (Returned (PStr "graph"), w)
  | llm_generate _ (react _ _ _ (_ :: _)) => (Returned (PStr "final"), w)
  | llm_generate _ _ => (Returned (PStr "text"), w)
  | cypher_execute _ _ => (Returned (PList []), w)
  | nearest_neighbours _ _ => (Returned (PList []), w)
  end.

(** ** The notebook *)

Section Notebook.
(** The three credentials are placeholders the reader fills in. *)
Variables url password groq_api_key : string.

Definition username : string := "neo4j".

(** [graph = Neo4jGraph(url=url, username=username, password=password)] *)
Definition graph : Neo4jGraph :=
  {| graph_url := url; graph_username := username; graph_password := password |}.

Definition connect : prog call unit :=
  do_ new graph_object graph;
  Return tt.

Definition import_url : string :=
  "https://gist.githubusercontent.com/tomasonjo/08dc8ba0e19d592c4c3cde40dd6abcc3/raw/e90b0c9386bf8be15b199e8ac8f83fc265a2ac57/microservices.json".

(** [import_query = requests.get(import_url).json()['query']; graph.query(import_query)] *)
Definition load_dataset : prog call unit :=
  do response <- ask (requests_get import_url);
  do doc <- ask (response_json response);
  do import_query <- lift (getitem doc "query");
  do_ ask (graph_query graph import_query);
  Return tt.

(** [vector_index = Neo4jVector.from_existing_graph(embedding=OllamaEmbeddings(model="llama3"), ...)] *)
Definition vector_index : Neo4jVector :=
  {| embedding := {| model := "llama3" |};
     vector_url := url;
     vector_username := username;
     vector_password := password;
     index_name := "tasks";
     node_label := "Task";
     text_node_properties := ["name"; "description"; "status"];
     embedding_node_property := "embedding" |}.

Definition build_vector_index : prog call unit :=
  do_ new embeddings_object (embedding vector_index);
  do_ new vector_object vector_index;
  Return tt.

(** [response = vector_index.similarity_search(...)] *)
Definition search_tasks : prog call pyval :=
  ask (similarity_search vector_index "How will RecommendationService be updated?").

(** [for i in response: print(i.page_content)] *)
Definition print_tasks (response : pyval) : prog call unit :=
  do items <- lift (iter response);
  for_each items (fun i =>
    do page_content <- lift (getattr i "page_content");
    do_ ask (print [page_content]);
    Return tt).

(** [vector_qa = RetrievalQA.from_chain_type(llm=ChatGroq(model_name=...),
    chain_type="stuff", retriever=vector_index.as_retriever())] *)
Definition vector_qa : RetrievalQA :=
  {| qa_chain_llm := {| model_name := Some "llama-3.1-70b-versatile"; temperature := None |};
     chain_type := "stuff";
     retriever := {| vectorstore := vector_index |} |}.

(** The arguments are evaluated left to right before the factory call. *)
Definition build_vector_qa : prog call unit :=
  do_ ask (environ_setitem "GROQ_API_KEY" groq_api_key);
  do_ new llm_object (qa_chain_llm vector_qa);
  do_ new retriever_object (retriever vector_qa);
  do_ new chain_object (retrieval_chain vector_qa);
  Return tt.

(** [vector_qa.invoke({"query": ...})] and [vector_qa.invoke(...)] *)
Definition ask_vector_qa : prog call unit :=
  do_ ask (chain_invoke (retrieval_chain vector_qa)
             (PDict [("query", PStr "How will recommendation service be updated?")]));
  do_ ask (chain_invoke (retrieval_chain vector_qa) (PStr "How many open tickets are there?"));
  Return tt.

(** [graph.query("MATCH ... RETURN count( * )")] *)
Definition count_query : pyval :=
  PStr "MATCH (t:Task {status:'open'}) RETURN count(*)".

Definition count_open_tasks : prog call unit :=
  do_ ask (graph_query graph count_query);
  Return tt.

(** [cypher_chain = GraphCypherQAChain.from_llm(cypher_llm=ChatGroq(temperature=0,
    model_name=...), qa_llm=ChatGroq(temperature=0), graph=graph, verbose=True)] *)
Definition cypher_chain : GraphCypherQAChain :=
  {| cypher_llm := {| model_name := Some "llama-3.1-70b-versatile"; temperature := Some 0%Z |};
     qa_llm := {| model_name := None; temperature := Some 0%Z |};
     chain_graph := graph;
     chain_verbose := true |}.

(** [graph.refresh_schema()], then the chain. *)
Definition build_cypher_chain : prog call unit :=
  do_ ask (graph_refresh_schema graph);
  do_ new llm_object (cypher_llm cypher_chain);
  do_ new llm_object (qa_llm cypher_chain);
  do_ new chain_object (cypher_qa_chain cypher_chain);
  Return tt.

Definition ask_cypher_chain : prog call unit :=
  do_ ask (chain_invoke (cypher_qa_chain cypher_chain) (PStr "How many open tickets are there?"));
  do_ ask (chain_invoke (cypher_qa_chain cypher_chain) (PStr "Which Team has the most open Tasks?"));
  do_ ask (chain_invoke (cypher_qa_chain cypher_chain) (PStr "Which services depend on Database directly?"));
  do_ ask (chain_invoke (cypher_qa_chain cypher_chain) (PStr "Which services depend on Database indirectly?"));
  Return tt.

Definition tasks_description : string :=
  "Useful when you need to answer questions about descriptions of tasks.
        Not useful for counting the number of tasks.
        Use full question as input.
        ".

Definition graph_description : string :=
  "Useful when you need to answer questions about microservices,
        their dependencies or assigned people. Also useful for any sort of 
        aggregation like counting the number of tasks, etc.
        Use full question as input.
        ".

Definition tasks_tool : Tool :=
  {| name := "Tasks";
     func := invoke (retrieval_chain vector_qa);
     description := tasks_description |}.

Definition graph_tool : Tool :=
  {| name := "Graph";
     func := invoke (cypher_qa_chain cypher_chain);
     description := graph_description |}.

Definition tools : list Tool := [tasks_tool; graph_tool].

Definition template : string :=
  "Answer the following questions as best you can. You have access to the following tools:

{tools}

Use the following format:

Question: the input question you must answer, ignore the question or query in the parse-able action
Thought: you should always think about what to do
Action: the action to take, should be one of [{tool_names}]
Action Input: the input to the action
Observation: the result of the action, ignore the query part
Final Answer: the final answer to the original input question

Begin!

Question: {input}
Thought:{agent_scratchpad}".

Definition prompt : PromptTemplate := {| prompt_template := template |}.

(** [llm = ChatGroq(temperature=0, model_name='llama-3.1-70b-versatile')] *)
Definition llm : ChatGroq :=
  {| model_name := Some "llama-3.1-70b-versatile"; temperature := Some 0%Z |}.

(** [agent = create_react_agent(llm=llm, tools=tools, prompt=prompt, stop_sequence=True)] *)
Definition agent : ReactAgent :=
  {| agent_llm := llm; agent_tools := tools; agent_prompt := prompt; stop_sequence := true |}.

(** [agent_executor = AgentExecutor(agent=agent, tools=tools, verbose=True, max_iterations=2)] *)
Definition agent_executor : AgentExecutor :=
  {| executor_agent := agent; executor_tools := tools;
     executor_verbose := true; max_iterations := 2 |}.



Definition build_agent : prog call unit :=
  do_ new tool_object tasks_tool;
  do_ new tool_object graph_tool;
  do_ new prompt_object prompt;
  do_ new llm_object llm;
  do_ new agent_object agent;
  do_ new executor_object agent_executor;
  Return tt.

(** [response = agent_executor.invoke({"input": question}); print("response:", response)] *)
Definition ask_agent (question : string) : prog call unit :=
  do response <- ask (executor_invoke agent_executor (PDict [("input", PStr question)]));
  do_ ask (print [PStr "response:"; response]);
  Return tt.

(** The cells after the dataset is loaded. *)
Definition after_loading : prog call unit :=
  do_ build_vector_index;
  do response <- search_tasks;
  do_ print_tasks response;
  do_ build_vector_qa;
  do_ ask_vector_qa;
  do_ count_open_tasks;
  do_ build_cypher_chain;
  do_ ask_cypher_chain;
  do_ build_agent;
  do_ ask_agent "Which team is assigned to maintain PaymentService?";
  do_ ask_agent "What tasks have optimization in their description?";
  Return tt.


(** The cells one by one; [response] is the value the search cell left
    for the printing cell. *)
Definition operations (response : pyval) : list (prog call unit) :=
  [ connect;
    load_dataset;
    build_vector_index;
    (do_ search_tasks; Return tt);
    print_tasks response;
    build_vector_qa;
    ask_vector_qa;
    count_open_tasks;
    build_cypher_chain;
    ask_cypher_chain;
    build_agent;
    ask_agent "Which team is assigned to maintain PaymentService?";
    ask_agent "What tasks have optimization in their description?" ].

(** The cells in order, as "Run All" executes them: a cell that raises
    stops the run. *)
Definition notebook : prog call unit :=
  do_ connect;
  do_ load_dataset;
  after_loading.


(** * Properties *)

(** ** Running programs *)

Section RunFacts.
Context {W C : Type}.
Variable respond : W -> C -> result pyval * W.

Lemma run_bind {A B : Type} (k : A -> prog C B) (p : prog C A) (w : W) :
  run respond (prog_bind k p) w =
  match outcome (run respond p w) with
  | Returned a =>
      let r := run respond (k a) (final (run respond p w)) in
      {| outcome := outcome r;
         trace := trace (run respond p w) ++ trace r;
         final := final r |}
  | Raised e =>
      {| outcome := Raised e;
         trace := trace (run respond p w);
         final := final (run respond p w) |}
  end.
Proof.
  revert B k w.
  induction p as [A a | A e | A c k' IH | A body _ handler _ k' IH]; intros B k w; simpl.
  - destruct (run respond (k a) w); reflexivity.
  - reflexivity.
  - destruct (respond w c) as [[v | e] w']; simpl; [| reflexivity].
    rewrite IH. destruct (outcome (run respond (k' v) w')); reflexivity.
  - destruct (outcome (run respond body w)) as [v | e]; simpl.
    + rewrite IH. destruct (outcome (run respond (k' v) _)); simpl;
        rewrite ?app_assoc; reflexivity.
    + destruct (outcome (run respond (handler e) _)) as [v | e']; simpl; [| reflexivity].
      rewrite IH. destruct (outcome (run respond (k' v) _)); simpl;
        rewrite ?app_assoc; reflexivity.
Qed.

Lemma trace_bind {A B : Type} (k : A -> prog C B) (p : prog C A) (w : W) :
  trace (run respond (prog_bind k p) w) =
  trace (run respond p w) ++
  match outcome (run respond p w) with
  | Returned a => trace (run respond (k a) (final (run respond p w)))
  | Raised _ => []
  end.
Proof.
  rewrite run_bind. destruct (outcome (run respond p w)); simpl;
    [reflexivity | symmetry; apply app_nil_r].
Qed.

Lemma outcome_bind {A B : Type} (k : A -> prog C B) (p : prog C A) (w : W) :
  outcome (run respond (prog_bind k p) w) =
  match outcome (run respond p w) with
  | Returned a => outcome (run respond (k a) (final (run respond p w)))
  | Raised e => Raised e
  end.
Proof. rewrite run_bind. destruct (outcome (run respond p w)); reflexivity. Qed.

(** In a program without a handler, a call that raises ends the run: it
    is the last entry of the trace, every earlier call returned, and the
    run raises the same exception. *)
Lemma raised_call_is_final {A : Type} (p : prog C A) (w : W) (c : C) (e : exn) :
  no_handler p ->
  (c, Raised e) ∈ trace (run respond p w) ->
  outcome (run respond p w) = Raised e /\
  exists earlier,
    trace (run respond p w) = earlier ++ [(c, Raised e)] /\
    Forall (fun en => exists v, en.2 = Returned v) earlier.
Proof.
  intros Hp. revert w. induction Hp as [a | e' | c' k _ _ IH]; intros w; simpl.
  - intros H. inversion H.
  - intros H. inversion H.
  - destruct (respond w c') as [[v | e'] w']; simpl; intros H.
    + apply elem_of_cons in H as [H | H]; [discriminate |].
      destruct (IH v w' H) as (Ho & earlier & Ht & Hall).
      split; [exact Ho |].
      exists ((c', Returned v) :: earlier). split.
      * rewrite Ht. reflexivity.
      * constructor; [eexists; reflexivity | exact Hall].
    + apply list_elem_of_singleton in H. inversion H; subst.
      split; [reflexivity |]. exists []. split; [reflexivity | constructor].
Qed.


Lemma emits_bind {X A B : Type} (pi : C -> option X) xs ys
    (p : prog C A) (k : A -> prog C B) :
  emits pi xs p -> (forall a, emits pi ys (k a)) -> emits pi (xs ++ ys) (prog_bind k p).
Proof.
  intros Hp Hk. induction Hp; simpl.
  - apply Hk.
  - apply emits_throw.
  - apply emits_hit; auto.
  - apply emits_skip; auto.
Qed.

Lemma emits_bind_nil {X A B : Type} (pi : C -> option X) ys
    (p : prog C A) (k : A -> prog C B) :
  emits pi [] p -> (forall a, emits pi ys (k a)) -> emits pi ys (prog_bind k p).
Proof. intros Hp Hk. apply (emits_bind pi [] ys p k Hp Hk). Qed.

Lemma emits_lift {X A : Type} (pi : C -> option X) (r : result A) :
  emits pi [] (lift r).
Proof. destruct r; constructor. Qed.

Lemma emits_for_each {X : Type} (pi : C -> option X) items (body : pyval -> prog C unit) :
  (forall i, emits pi [] (body i)) -> emits pi [] (for_each items body).
Proof.
  intros Hb. induction items as [| i rest IH]; simpl.
  - constructor.
  - apply emits_bind_nil; auto.
Qed.

Lemma emits_sound {X A : Type} (pi : C -> option X) xs (p : prog C A) (w : W) :
  emits pi xs p ->
  selected pi (trace (run respond p w)) `prefix_of` xs /\
  (forall a, outcome (run respond p w) = Returned a ->
             selected pi (trace (run respond p w)) = xs).
Proof.
  intros H. revert w. unfold selected, calls.
  induction H as [a | xs e | x xs c k Hpi _ IH | xs c k Hpi _ IH]; intros w; simpl.
  - split; [apply prefix_nil | reflexivity].
  - split; [apply prefix_nil | discriminate].
  - destruct (respond w c) as [[v | e] w']; simpl; rewrite Hpi.
    + destruct (IH v w') as [Hpre Heq]. split.
      * apply prefix_cons, Hpre.
      * intros a Ha. f_equal. eapply Heq, Ha.
    + split; [apply prefix_cons, prefix_nil | discriminate].
  - destruct (respond w c) as [[v | e] w']; simpl; rewrite Hpi.
    + apply IH.
    + split; [apply prefix_nil | discriminate].
Qed.

Lemma emits_nil_sound {X A : Type} (pi : C -> option X) (p : prog C A) (w : W) :
  emits pi [] p -> selected pi (trace (run respond p w)) = [].
Proof.
  intros H. apply prefix_nil_inv. apply (emits_sound pi [] p w H).
Qed.

Lemma always_bind {A B : Type} (P : C -> Prop) (p : prog C A) (k : A -> prog C B) :
  always P p -> (forall a, always P (k a)) -> always P (prog_bind k p).
Proof.
  intros Hp Hk. induction Hp; simpl; [apply Hk | constructor | constructor; auto].
Qed.

Lemma always_lift {A : Type} (P : C -> Prop) (r : result A) : always P (lift r).
Proof. destruct r; constructor. Qed.

Lemma always_for_each (P : C -> Prop) items (body : pyval -> prog C unit) :
  (forall i, always P (body i)) -> always P (for_each items body).
Proof.
  intros Hb. induction items as [| i rest IH]; simpl.
  - constructor.
  - apply always_bind; auto.
Qed.

Lemma always_sound {A : Type} (P : C -> Prop) (p : prog C A) (w : W) :
  always P p -> Forall P (calls (trace (run respond p w))).
Proof.
  intros H. revert w. unfold calls.
  induction H as [a | e | c k Hc _ IH]; intros w; simpl.
  - constructor.
  - constructor.
  - destruct (respond w c) as [[v | e] w']; simpl.
    + constructor; [exact Hc | apply IH].
    + constructor; [exact Hc | constructor].
Qed.

End RunFacts.

Lemma selected_app {C X : Type} (pi : C -> option X) (t1 t2 : list (C * result pyval)) :
  selected pi (t1 ++ t2) = selected pi t1 ++ selected pi t2.
Proof. unfold selected, calls. rewrite map_app. apply omap_app. Qed.

Local Arguments lift : simpl never.

Ltac emits_step :=
  first
    [ apply emits_return
    | apply emits_throw
    | apply emits_lift
    | (apply emits_hit; [reflexivity | intros ?])
    | (apply emits_skip; [reflexivity | intros ?])
    | (apply emits_for_each; intros ?)
    | (apply emits_bind_nil; [| intros ?]) ].

Ltac emits_auto := repeat (simpl; emits_step).

Ltac always_step :=
  first
    [ apply always_return
    | apply always_throw
    | apply always_lift
    | (apply always_call; [| intros ?])
    | (apply always_for_each; intros ?)
    | (apply always_bind; [| intros ?]) ].

(** ** The bulk data loader *)

Section Loader.
Context {W : Type}.
Variable respond : W -> call -> result pyval * W.

Lemma emits_fetch_connect : emits fetch_of [] connect.
Proof. unfold connect. emits_auto. Qed.

Lemma emits_fetch_after_loading : emits fetch_of [] after_loading.
Proof. unfold after_loading. emits_auto. Qed.

Lemma emits_query_connect : emits query_of [] connect.
Proof. unfold connect. emits_auto. Qed.

Lemma emits_query_after_loading : emits query_of [(graph, count_query)] after_loading.
Proof. unfold after_loading. emits_auto. Qed.

(** The loader cell, case by case on what the outside world answers. *)
Lemma run_load_dataset (w : W) :
  let fetch := requests_get import_url in
  let r := run respond load_dataset w in
  match respond w fetch with
  | (Raised e, _) => outcome r = Raised e /\ trace r = [(fetch, Raised e)]
  | (Returned response, w1) =>
      let decode := response_json response in
      match respond w1 decode with
      | (Raised e, _) =>
          outcome r = Raised e /\
          trace r = [(fetch, Returned response); (decode, Raised e)]
      | (Returned doc, w2) =>
          match getitem doc "query" with
          | Raised e =>
              outcome r = Raised e /\
              trace r = [(fetch, Returned response); (decode, Returned doc)]
          | Returned import_query =>
              exists answer,
                trace r = [(fetch, Returned response); (decode, Returned doc);
                           (graph_query graph import_query, answer)]
          end
      end
  end.
Proof.
  unfold load_dataset. simpl.
  destruct (respond w (requests_get import_url)) as [[response | e] w1]; simpl; [| auto].
  destruct (respond w1 (response_json response)) as [[doc | e] w2]; simpl; [| auto].
  unfold lift. destruct (getitem doc "query") as [q | e]; simpl; [| auto].
  destruct (respond w2 (graph_query graph q)) as [[v | e] w3]; simpl; eexists; eauto.
Qed.

(** What the loader submits: at most one query, on [graph], and it is the
    [query] value of the document decoded from the one response fetched. *)
Lemma load_dataset_queries (w : W) :
  let fetch := requests_get import_url in
  let r := run respond load_dataset w in
  selected fetch_of (trace r) = [import_url] /\
  (selected query_of (trace r) = [] \/
   exists response doc import_query,
     (fetch, Returned response) ∈ trace r /\
     (response_json response, Returned doc) ∈ trace r /\
     getitem doc "query" = Returned import_query /\
     selected query_of (trace r) = [(graph, import_query)]).
Proof.
  intros fetch r. pose proof (run_load_dataset w) as H. cbv zeta in H. fold fetch r in H.
  destruct (respond w fetch) as [[response | e] w1].
  2:{ destruct H as [_ ->]. split; [reflexivity | left; reflexivity]. }
  destruct (respond w1 (response_json response)) as [[doc | e] w2].
  2:{ destruct H as [_ ->]. split; [reflexivity | left; reflexivity]. }
  destruct (getitem doc "query") as [q | e] eqn:Hq.
  2:{ destruct H as [_ ->]. split; [reflexivity | left; reflexivity]. }
  destruct H as [answer ->]. split; [reflexivity |].
  right. exists response, doc, q. split; [left |]. split; [right; left |].
  split; [exact Hq | reflexivity].
Qed.

(** C1 (as amended).  The loader makes exactly one fetch, of [import_url];
    it decodes the response, takes the value under the key [query] of the
    decoded document and submits that value, unchanged, as one query on
    [graph]; it submits nothing when the fetch or the decoding raises or
    the document has no such key.  In a run of the whole notebook there is
    no second fetch, every direct query goes to [graph], and each is either
    that [query] value or the constant counting query. *)
Theorem loader_fetches_once_and_submits_query_field (w : W) :
  let fetch := requests_get import_url in
  let r := run respond load_dataset w in
  let n := run respond notebook w in
  selected fetch_of (trace r) = [import_url] /\
  match respond w fetch with
  | (Raised e, _) => outcome r = Raised e /\ selected query_of (trace r) = []
  | (Returned response, w1) =>
      match respond w1 (response_json response) with
      | (Raised e, _) => outcome r = Raised e /\ selected query_of (trace r) = []
      | (Returned doc, _) =>
          match getitem doc "query" with
          | Raised e => outcome r = Raised e /\ selected query_of (trace r) = []
          | Returned import_query => selected query_of (trace r) = [(graph, import_query)]
          end
      end
  end /\
  selected fetch_of (trace n) `prefix_of` [import_url] /\
  (forall g q, (g, q) ∈ selected query_of (trace n) ->
     g = graph /\
     (q = count_query \/
      exists response doc,
        (fetch, Returned response) ∈ trace n /\
        (response_json response, Returned doc) ∈ trace n /\
        getitem doc "query" = Returned q)).
Proof.
  intros fetch r n.
  pose proof (run_load_dataset w) as Hload. cbv zeta in Hload. fold fetch r in Hload.
  split; [apply load_dataset_queries |]. split; [| split].
  - destruct (respond w fetch) as [[response | e] w1].
    2:{ destruct Hload as [Ho ->]. split; [exact Ho | reflexivity]. }
    destruct (respond w1 (response_json response)) as [[doc | e] w2].
    2:{ destruct Hload as [Ho ->]. split; [exact Ho | reflexivity]. }
    destruct (getitem doc "query") as [q | e].
    + destruct Hload as [answer ->]. reflexivity.
    + destruct Hload as [Ho ->]. split; [exact Ho | reflexivity].
  - assert (Hn : emits fetch_of [import_url] notebook).
    { unfold notebook. apply (emits_bind fetch_of [] [import_url]).
      - apply emits_fetch_connect.
      - intros _. apply (emits_bind fetch_of [import_url] []).
        + unfold load_dataset. emits_auto.
        + intros _. apply emits_fetch_after_loading. }
    apply (emits_sound respond fetch_of [import_url] notebook w Hn).
  - intros g q Hin. subst n. unfold notebook in *.
    rewrite trace_bind, selected_app in Hin. rewrite trace_bind.
    rewrite (emits_nil_sound respond query_of connect w emits_query_connect) in Hin.
    destruct (outcome (run respond connect w)) as [[] | e]; [| inversion Hin].
    set (w0 := final (run respond connect w)) in *.
    rewrite trace_bind, selected_app in Hin. rewrite trace_bind.
    pose proof (load_dataset_queries w0) as [_ Hl]. cbv zeta in Hl.
    set (rl := run respond load_dataset w0) in *.
    change (selected query_of []) with (@nil (Neo4jGraph * pyval)) in Hin.
    cbv beta in Hin. rewrite app_nil_l in Hin.
    apply elem_of_app in Hin as [Hin | Hin].
    + destruct Hl as [Hl | (response & doc & iq & Hf & Hd & Hq & Hl)];
        rewrite Hl in Hin; [inversion Hin |].
      apply list_elem_of_singleton in Hin. injection Hin as -> ->.
      split; [reflexivity |]. right. exists response, doc.
      split; [| split; [| exact Hq]];
        apply elem_of_app; right; apply elem_of_app; left; assumption.
    + destruct (outcome rl) as [[] | e]; [| inversion Hin].
      pose proof (emits_sound respond query_of _ after_loading (final rl)
                    emits_query_after_loading) as [Hpre _].
      destruct (selected query_of (trace (run respond after_loading (final rl))))
        as [| x xs]; [inversion Hin |].
      pose proof (prefix_cons_inv_1 _ _ _ _ Hpre) as Hx.
      apply prefix_cons_inv_2, prefix_nil_inv in Hpre. subst x xs.
      apply list_elem_of_singleton in Hin. inversion Hin; auto.
Qed.

End Loader.

(** ** Failures *)

Section Failures.
Context {W : Type}.
Variable respond : W -> call -> result pyval * W.

(** No cell of the notebook has a [try] block. *)
Lemma operations_have_no_handler (response : pyval) (op : prog call unit) :
  op ∈ notebook :: operations response -> no_handler op.
Proof.
  intros Hin. unfold operations in Hin.
  repeat (apply elem_of_cons in Hin as [-> | Hin]); [.. | inversion Hin];
    unfold no_handler, notebook, connect, load_dataset, after_loading, print_tasks,
      search_tasks, build_vector_index, build_vector_qa, ask_vector_qa,
      count_open_tasks, build_cypher_chain, ask_cypher_chain, build_agent, ask_agent;
    repeat (simpl; always_step); exact I.
Qed.

(** C5.  No cell of the notebook, nor the notebook as a whole, runs
    anything under a handler.  So in each of them a library call that
    raises ends the run: the run raises the very same exception, the
    failing call is the last one made (it is not repeated and nothing is
    called after it), and every call before it had returned. *)
Theorem failures_propagate_unchanged (w : W) (response : pyval)
    (op : prog call unit) (c : call) (e : exn) :
  op ∈ notebook :: operations response ->
  (c, Raised e) ∈ trace (run respond op w) ->
  no_handler op /\
  outcome (run respond op w) = Raised e /\
  exists earlier,
    trace (run respond op w) = earlier ++ [(c, Raised e)] /\
    Forall (fun en => exists v, en.2 = Returned v) earlier.
Proof.
  intros Hop Hin. pose proof (operations_have_no_handler response op Hop) as Hfree.
  split; [exact Hfree |]. apply raised_call_is_final; assumption.
Qed.





End Failures.

(** ** Objects the script builds *)

Section Objects.
Context {W : Type}.
Variable respond : W -> call -> result pyval * W.

Lemma emits_vector_notebook : emits vector_of [vector_index] notebook.
Proof.
  unfold notebook, connect, load_dataset, after_loading.
  emits_auto.
Qed.

(** C7 (as amended).  The script defines one flat configuration record for
    the vector index, the keyword arguments of its single
    [from_existing_graph] call; of its fields, [node_label] and
    [text_node_properties] say which label and which properties feed the
    index, [embedding_node_property] where the result is stored and
    [index_name] how the index is called. *)
Theorem one_vector_index_configuration (w : W) :
  let n := run respond notebook w in
  selected vector_of (trace n) `prefix_of` [vector_index] /\
  (forall a, outcome n = Returned a -> selected vector_of (trace n) = [vector_index]) /\
  node_label vector_index = "Task" /\
  text_node_properties vector_index = ["name"; "description"; "status"] /\
  embedding_node_property vector_index = "embedding" /\
  index_name vector_index = "tasks".
Proof.
  intros n. split; [| split]; [| | repeat split].
  - apply (emits_sound respond vector_of _ notebook w emits_vector_notebook).
  - apply (emits_sound respond vector_of _ notebook w emits_vector_notebook).
Qed.

(** Every call of the notebook that can reach a graph store carries the
    script's connection triple. *)
Lemma always_connection_notebook :
  always (fun c => forall cn, cn ∈ connections c -> cn = (url, username, password))
         notebook.
Proof.
  unfold notebook, connect, load_dataset, after_loading.
  repeat (simpl; always_step);
    try (intros cn Hcn; simpl in Hcn;
         repeat (apply elem_of_cons in Hcn as [-> | Hcn]; [reflexivity |]);
         inversion Hcn).
Qed.

Lemma emits_graph_notebook : emits graph_of [graph] notebook.
Proof.
  unfold notebook, connect, load_dataset, after_loading.
  emits_auto.
Qed.

(** C9.  The graph client and the vector index adapter, the only two
    objects the script builds from credentials, are built with the same
    triple [(url, username, password)]; and in every run each call that
    can reach a graph store (a query, a schema refresh, the index
    construction, a similarity search, a chain or agent invocation) goes
    through objects carrying that triple. *)
Theorem one_connection_triple (w : W) :
  let n := run respond notebook w in
  graph_connection graph = (url, username, password) /\
  vector_connection vector_index = (url, username, password) /\
  selected graph_of (trace n) `prefix_of` [graph] /\
  selected vector_of (trace n) `prefix_of` [vector_index] /\
  Forall (fun c => forall cn, cn ∈ connections c -> cn = (url, username, password))
         (calls (trace n)).
Proof.
  intros n. split; [reflexivity |]. split; [reflexivity |]. split; [| split].
  - apply (emits_sound respond graph_of _ notebook w emits_graph_notebook).
  - apply (emits_sound respond vector_of _ notebook w emits_vector_notebook).
  - apply always_sound, always_connection_notebook.
Qed.

Lemma emits_executor_notebook :
  emits executor_of [agent_executor; agent_executor] notebook.
Proof.
  unfold notebook, connect, load_dataset, after_loading.
  emits_auto.
Qed.

(** C10.  The tool list holds exactly two tools, named Tasks and Graph,
    whose functions are the [invoke] methods of the retrieval chain and of
    the cypher chain; the agent and its executor are given this very list,
    and every agent invocation of the notebook is made on that executor.
    Hence a tool name resolves to one of the two tools or to none, and
    executing the agent's choice runs one of the two wrappers or
    nothing. *)
Theorem tools_are_tasks_and_graph (w : W) :
  let n := run respond notebook w in
  length tools = 2 /\
  map name tools = ["Tasks"; "Graph"] /\
  map func tools =
    [invoke (retrieval_chain vector_qa); invoke (cypher_qa_chain cypher_chain)] /\
  executor_tools agent_executor = tools /\
  agent_tools (executor_agent agent_executor) = tools /\
  selected executor_of (trace n) `prefix_of` [agent_executor; agent_executor] /\
  (forall tool_name t,
     find_tool tool_name (executor_tools agent_executor) = Some t ->
     (tool_name = "Tasks" /\ func t = invoke (retrieval_chain vector_qa)) \/
     (tool_name = "Graph" /\ func t = invoke (cypher_qa_chain cypher_chain))) /\
  (forall schema tool_name input,
     execute_tool schema agent_executor tool_name input = retrieval_qa_invoke vector_qa input \/
     execute_tool schema agent_executor tool_name input =
       graph_cypher_qa_invoke cypher_chain schema input \/
     execute_tool schema agent_executor tool_name input = Return (unknown_tool tool_name)).
Proof.
  intros n. repeat (split; [reflexivity |]). split; [| split].
  - apply (emits_sound respond executor_of _ notebook w emits_executor_notebook).
  - intros tool_name t. simpl.
    destruct (String.eqb_spec tool_name "Tasks") as [-> | _].
    + intros [= <-]. left. split; reflexivity.
    + destruct (String.eqb_spec tool_name "Graph") as [-> | _]; [| discriminate].
      intros [= <-]. right. split; reflexivity.
  - intros schema tool_name input. unfold execute_tool. simpl.
    destruct (String.eqb tool_name "Tasks"); [left; reflexivity |].
    destruct (String.eqb tool_name "Graph"); [right; left; reflexivity |].
    right; right; reflexivity.
Qed.

End Objects.

(** ** The framework's components *)

Section Services.
Context {W : Type}.
Variable respond : W -> service -> result pyval * W.

Lemma selected_cons {X : Type} (pi : service -> option X) c a t :
  selected pi ((c, a) :: t) =
  match pi c with Some x => x :: selected pi t | None => selected pi t end.
Proof. reflexivity. Qed.

(** C3.  For every question the query-translation wrapper first sends the
    question with the graph's schema to its query-generation client, then
    executes the text that came back on its graph, then sends the raw rows
    with the question to its answer client, and returns that client's text
    under [result]; a step that raises ends the chain at that step. *)
Theorem cypher_chain_steps_in_order (c : GraphCypherQAChain) (schema question : pyval)
    (w : W) :
  let r := run respond (graph_cypher_qa_invoke c schema question) w in
  let generate := llm_generate (cypher_llm c) (cypher_generation schema question) in
  let execute := cypher_execute (chain_graph c) in
  let phrase := fun rows => llm_generate (qa_llm c) (cypher_answer question rows) in
  (exists e, trace r = [(generate, Raised e)] /\ outcome r = Raised e) \/
  (exists q e,
     trace r = [(generate, Returned q); (execute q, Raised e)] /\ outcome r = Raised e) \/
  (exists q rows e,
     trace r = [(generate, Returned q); (execute q, Returned rows);
                (phrase rows, Raised e)] /\
     outcome r = Raised e) \/
  (exists q rows answer,
     trace r = [(generate, Returned q); (execute q, Returned rows);
                (phrase rows, Returned answer)] /\
     outcome r = Returned (PDict [("query", question); ("result", answer)])).
Proof.
  intros r generate execute phrase. subst r. unfold graph_cypher_qa_invoke. simpl.
  fold generate.
  destruct (respond w generate) as [[q | e] w1]; simpl; [| left; eauto].
  fold (execute q).
  destruct (respond w1 (execute q)) as [[rows | e] w2]; simpl; [| right; left; eauto].
  fold (phrase rows).
  destruct (respond w2 (phrase rows)) as [[answer | e] w3]; simpl.
  - right; right; right. eauto.
  - right; right; left. eauto.
Qed.

Lemma emits_round_execute_tool schema x tool_name input :
  emits round_of [] (execute_tool schema x tool_name input).
Proof.
  unfold execute_tool. destruct (find_tool tool_name (executor_tools x)) as [t |].
  - destruct (func t) as [[c | c]]; unfold run_tool, retrieval_qa_invoke,
      graph_cypher_qa_invoke; emits_auto.
  - constructor.
Qed.

(** Executing a tool makes at most three remote calls. *)
Lemma execute_tool_calls schema x tool_name input (w : W) :
  length (trace (run respond (execute_tool schema x tool_name input) w)) <= 3.
Proof.
  unfold execute_tool. destruct (find_tool tool_name (executor_tools x)) as [t |].
  - destruct (func t) as [[c | c]]; unfold run_tool, retrieval_qa_invoke,
      graph_cypher_qa_invoke; simpl;
      repeat (destruct (respond _ _) as [[? | ?] ?]; simpl); lia.
  - simpl. lia.
Qed.

Section AgentLoop.
Variable parse : pyval -> result decision.
Variables (schema : pyval) (x : AgentExecutor) (input : pyval).

Lemma agent_loop_rounds (remaining : nat) : forall scratchpad w,
  selected round_of
    (trace (run respond (agent_loop parse schema x input remaining scratchpad) w))
  `prefix_of` seq (length scratchpad) remaining.
Proof.
  induction remaining as [| n IH]; intros sp w.
  - apply prefix_nil.
  - cbn [agent_loop ask prog_bind run].
    destruct (respond w _) as [[text | e] w1]; cbn [trace];
      rewrite selected_cons; cbn [round_of seq];
      [| apply prefix_cons, prefix_nil].
    apply prefix_cons. unfold lift.
    destruct (parse text) as [[tool_name tool_input | output] | e];
      cbn [prog_bind run trace]; try apply prefix_nil.
    rewrite trace_bind, selected_app.
    rewrite (emits_nil_sound respond round_of _ w1
               (emits_round_execute_tool schema x tool_name tool_input)).
    destruct (outcome (run respond (execute_tool schema x tool_name tool_input) w1))
      as [seen | e]; [| apply prefix_nil].
    cbn [app].
    replace (S (length sp)) with
      (length (sp ++ [{| chosen_tool := tool_name; tool_input := tool_input;
                         observation := seen |}]))
      by (rewrite length_app; simpl; lia).
    apply IH.
Qed.

(** Each round makes one request to the model and runs at most one tool. *)
Lemma agent_loop_calls (remaining : nat) : forall scratchpad w,
  length (trace (run respond (agent_loop parse schema x input remaining scratchpad) w))
  <= 4 * remaining.
Proof.
  induction remaining as [| n IH]; intros sp w.
  - simpl. lia.
  - cbn [agent_loop ask prog_bind run].
    destruct (respond w _) as [[text | e] w1]; cbn [trace length]; [| lia].
    unfold lift.
    destruct (parse text) as [[tool_name tool_input | output] | e];
      cbn [prog_bind run trace length]; try lia.
    rewrite trace_bind, length_app.
    pose proof (execute_tool_calls schema x tool_name tool_input w1) as Htool.
    destruct (outcome (run respond (execute_tool schema x tool_name tool_input) w1))
      as [seen | e]; [| simpl; lia].
    specialize (IH (sp ++ [{| chosen_tool := tool_name; tool_input := tool_input;
                              observation := seen |}])
                   (final (run respond (execute_tool schema x tool_name tool_input) w1))).
    lia.
Qed.

Lemma unselected_in_silent_trace {X : Type} (pi : service -> option X) t c a :
  selected pi t = [] -> (c, a) ∈ t -> pi c = None.
Proof.
  intros Hnil Hin. destruct (pi c) as [y |] eqn:Hpi; [| reflexivity].
  assert (Hy : y ∈ selected pi t).
  { unfold selected, calls. apply list_elem_of_omap. exists c. split; [| exact Hpi].
    apply list_elem_of_fmap. exists (c, a). split; [reflexivity | exact Hin]. }
  rewrite Hnil in Hy. inversion Hy.
Qed.

(** Once the model's text is a final answer, nothing more is called. *)
Lemma agent_loop_stops_at_final (remaining : nat) :
  forall scratchpad w earlier c text later output,
  trace (run respond (agent_loop parse schema x input remaining scratchpad) w) =
    earlier ++ (c, Returned text) :: later ->
  is_Some (round_of c) ->
  parse text = Returned (final_answer output) ->
  later = [] /\
  outcome (run respond (agent_loop parse schema x input remaining scratchpad) w) =
    Returned output.
Proof.
  induction remaining as [| n IH]; intros sp w earlier c text later output Ht Hc Hp.
  - destruct earlier; discriminate Ht.
  - cbn [agent_loop ask prog_bind run] in Ht |- *.
    destruct (respond w _) as [[text0 | e] w1]; cbn [trace outcome] in Ht |- *.
    2:{ destruct earlier as [| a [| b earlier]]; discriminate Ht. }
    destruct earlier as [| a earlier]; cbn [app] in Ht.
    + injection Ht as _ -> Hl. rewrite Hp in Hl |- *. cbn in Hl |- *. auto.
    + injection Ht as _ Ht. unfold lift in Ht |- *.
      destruct (parse text0) as [[tool_name tool_input | output0] | e];
        cbn [prog_bind run trace outcome] in Ht |- *;
        try (destruct earlier; discriminate Ht).
      rewrite trace_bind in Ht. rewrite outcome_bind.
      set (tool := run respond (execute_tool schema x tool_name tool_input) w1) in *.
      assert (Hsilent : selected round_of (trace tool) = []).
      { apply emits_nil_sound, emits_round_execute_tool. }
      apply app_eq_inv in Ht as [(k & Hk1 & Hk2) | (k & Hk1 & Hk2)].
      * destruct k as [| y k]; cbn [app] in Hk2.
        -- destruct (outcome tool) as [seen | e]; [| discriminate Hk2].
           eapply (IH _ _ [] c text later output); eauto.
        -- injection Hk2 as <- _.
           assert (Hnone : round_of c = None).
           { eapply unselected_in_silent_trace; [exact Hsilent |].
             rewrite Hk1. apply elem_of_app. right. left. }
           rewrite Hnone in Hc. destruct Hc as [? Hc]. discriminate Hc.
      * destruct (outcome tool) as [seen | e].
        -- eapply (IH _ _ k c text later output); eauto.
        -- destruct k; discriminate Hk2.
Qed.

(** A run that returns ended with a final answer or used up all rounds. *)
Lemma agent_loop_returned (remaining : nat) :
  forall scratchpad w output,
  outcome (run respond (agent_loop parse schema x input remaining scratchpad) w) =
    Returned output ->
  (exists earlier c text,
     trace (run respond (agent_loop parse schema x input remaining scratchpad) w) =
       earlier ++ [(c, Returned text)] /\
     is_Some (round_of c) /\
     parse text = Returned (final_answer output)) \/
  (output = stopped /\
   selected round_of
     (trace (run respond (agent_loop parse schema x input remaining scratchpad) w)) =
   seq (length scratchpad) remaining).
Proof.
  induction remaining as [| n IH]; intros sp w output Ho.
  - right. injection Ho as <-. split; reflexivity.
  - cbn [agent_loop ask prog_bind run] in Ho |- *.
    destruct (respond w _) as [[text0 | e] w1]; cbn [trace outcome] in Ho |- *;
      [| discriminate Ho].
    unfold lift in Ho |- *.
    destruct (parse text0) as [[tool_name tool_input | output0] | e] eqn:Hp;
      cbn [prog_bind run trace outcome] in Ho |- *; [| | discriminate Ho].
    + rewrite outcome_bind in Ho. rewrite trace_bind.
      set (tool := run respond (execute_tool schema x tool_name tool_input) w1) in *.
      assert (Hsilent : selected round_of (trace tool) = []).
      { apply emits_nil_sound, emits_round_execute_tool. }
      destruct (outcome tool) as [seen | e]; [| discriminate Ho].
      destruct (IH _ _ _ Ho) as [(earlier & c & text & Ht & Hc & Hf) | [-> Hs]].
      * left. eexists (_ :: trace tool ++ earlier), c, text.
        split; [| auto]. rewrite Ht. cbn [app]. rewrite <- app_assoc. reflexivity.
      * right. split; [reflexivity |].
        rewrite selected_cons; cbn [round_of seq]. f_equal.
        rewrite selected_app, Hsilent, Hs, length_app. cbn [app length].
        f_equal. lia.
    + injection Ho as ->. left. eexists [], _, text0.
      split; [reflexivity |]. split; [eexists; reflexivity | exact Hp].
Qed.

End AgentLoop.

(** C4.  Whatever the model and the tools answer, an invocation of the
    notebook's agent executor ends after at most two rounds and eight
    remote calls: its action-selection requests are numbered 0, 1 by the
    observations fed back so far and there is never a third.  It stops at
    the first final answer, returning it, and a run that returns has
    either just read a final answer or used both rounds. *)
Theorem agent_stops_within_two_rounds (parse : pyval -> result decision)
    (schema input : pyval) (w : W) :
  let r := run respond (agent_executor_invoke parse schema agent_executor input) w in
  max_iterations agent_executor = 2 /\
  selected round_of (trace r) `prefix_of` [0; 1] /\
  length (trace r) <= 8 /\
  (forall earlier c text later output,
     trace r = earlier ++ (c, Returned text) :: later ->
     is_Some (round_of c) ->
     parse text = Returned (final_answer output) ->
     later = [] /\
     outcome r = Returned (PDict [("input", input); ("output", output)])) /\
  (forall answer,
     outcome r = Returned answer ->
     (exists earlier c text output,
        trace r = earlier ++ [(c, Returned text)] /\
        is_Some (round_of c) /\
        parse text = Returned (final_answer output) /\
        answer = PDict [("input", input); ("output", output)]) \/
     (selected round_of (trace r) = [0; 1] /\
      answer = PDict [("input", input); ("output", stopped)])).
Proof.
  intros r. subst r. unfold agent_executor_invoke.
  set (loop := agent_loop parse schema agent_executor input
                 (max_iterations agent_executor) []).
  assert (Ht : trace (run respond (do output <- loop;
                 Return (PDict [("input", input); ("output", output)])) w) =
               trace (run respond loop w)).
  { rewrite trace_bind. destruct (outcome (run respond loop w)); apply app_nil_r. }
  rewrite Ht, outcome_bind.
  split; [reflexivity |]. split; [| split; [| split]].
  - apply (agent_loop_rounds parse schema agent_executor input 2 [] w).
  - apply (agent_loop_calls parse schema agent_executor input 2 [] w).
  - intros earlier c text later output Heq Hc Hp.
    destruct (agent_loop_stops_at_final parse schema agent_executor input
                (max_iterations agent_executor) [] w earlier c text later output
                Heq Hc Hp) as [-> Ho].
    fold loop in Ho. rewrite Ho. auto.
  - intros answer Ho.
    destruct (outcome (run respond loop w)) as [output |] eqn:Hloop; [| discriminate Ho].
    injection Ho as <-.
    destruct (agent_loop_returned parse schema agent_executor input
                (max_iterations agent_executor) [] w output Hloop)
      as [(earlier & c & text & Htr & Hc & Hp) | [-> Hs]].
    + left. exists earlier, c, text, output. auto.
    + right. auto.
Qed.

End Services.

(** ** Language-model clients *)


Section Clients.
Context {W : Type}.
Variable respond : W -> call -> result pyval * W.



End Clients.

(** ** The vector index *)

Section VectorIndex.
Import Index.
Context {V : Type}.
Variable embed : OllamaEmbeddings -> string -> V.
Variable distance : V -> V -> Z.

#[local] Instance closer_transitive (q : V) : Transitive (closer distance q).
Proof. unfold closer. intros a b c Hab Hbc. lia. Qed.

#[local] Instance closer_total (q : V) : Total (closer distance q).
Proof. unfold closer. intros a b. lia. Qed.

Lemma node_text_agree (keys : list string) (n m : @node V) :
  (forall key, key ∈ keys -> properties n !! key = properties m !! key) ->
  node_text keys n = node_text keys m.
Proof.
  induction keys as [| key rest IH]; intros Hagree; simpl; [reflexivity |].
  unfold property_text. rewrite (Hagree key) by left.
  rewrite IH; [reflexivity |]. intros key' Hin. apply Hagree. right. exact Hin.
Qed.

Lemma labels_embed_node (v : Neo4jVector) (n : @node V) :
  labels (embed_node embed v n) = labels n.
Proof. unfold embed_node. case_decide; reflexivity. Qed.

Lemma properties_embed_node_other (v : Neo4jVector) (n : @node V) (key : string) :
  key <> embedding_node_property v ->
  properties (embed_node embed v n) !! key = properties n !! key.
Proof.
  intros Hne. unfold embed_node. case_decide; [| reflexivity].
  simpl. apply lookup_insert_ne. congruence.
Qed.

Lemma node_text_embed_node (v : Neo4jVector) (n : @node V) :
  embedding_node_property v ∉ text_node_properties v ->
  node_text (text_node_properties v) (embed_node embed v n) =
  node_text (text_node_properties v) n.
Proof.
  intros Hnot. apply node_text_agree. intros key Hin.
  apply properties_embed_node_other. intros ->. contradiction.
Qed.

Lemma indexed_embed_node (v : Neo4jVector) (n : @node V) :
  embedding_node_property v ∉ text_node_properties v ->
  indexed v (embed_node embed v n) =
  if decide (node_label v ∈ labels n) then
    Some (embed (embedding v) (node_text (text_node_properties v) n),
          node_text (text_node_properties v) n)
  else None.
Proof.
  intros Hnot. unfold indexed. rewrite labels_embed_node.
  case_decide as Hl; [| reflexivity].
  rewrite node_text_embed_node by exact Hnot.
  unfold embed_node. rewrite decide_True by exact Hl. simpl.
  rewrite lookup_insert_eq. reflexivity.
Qed.

Lemma append_cons (a : Ascii.ascii) (x y : string) :
  String a x +:+ y = String a (x +:+ y).
Proof. reflexivity. Qed.

Lemma append_empty_r (s : string) : s +:+ EmptyString = s.
Proof.
  induction s as [| a s IH]; [reflexivity |]. rewrite append_cons, IH. reflexivity.
Qed.

Lemma append_inv_head (p x y : string) : p +:+ x = p +:+ y -> x = y.
Proof.
  induction p as [| a p IH]; [auto |]. rewrite !append_cons. intros [= H]. apply IH, H.
Qed.

Lemma length_append (x y : string) :
  String.length (x +:+ y) = String.length x + String.length y.
Proof.
  induction x as [| a x IH]; [reflexivity |]. rewrite append_cons. simpl.
  rewrite IH. reflexivity.
Qed.

Lemma append_inv_tail (x y r : string) : x +:+ r = y +:+ r -> x = y.
Proof.
  revert y. induction x as [| a x IH]; intros [| b y] H.
  - reflexivity.
  - apply (f_equal String.length) in H. rewrite !length_append in H.
    simpl in H. lia.
  - apply (f_equal String.length) in H. rewrite !length_append in H.
    simpl in H. lia.
  - rewrite !append_cons in H. injection H as -> H. f_equal. apply IH, H.
Qed.

Lemma node_text_agree_text (keys : list string) (n m : @node V) :
  (forall key, key ∈ keys -> property_text n key = property_text m key) ->
  node_text keys n = node_text keys m.
Proof.
  induction keys as [| key rest IH]; intros Hagree; simpl; [reflexivity |].
  rewrite (Hagree key) by left.
  rewrite IH; [reflexivity |]. intros key' Hin. apply Hagree. right. exact Hin.
Qed.

(** The text tells the configured properties apart: two nodes that differ
    in the text of one of them, and in no other, have different texts. *)
Lemma node_text_differs (keys : list string) (n m : @node V) (key : string) :
  NoDup keys ->
  key ∈ keys ->
  property_text n key <> property_text m key ->
  (forall key', key' ∈ keys -> key' <> key -> property_text n key' = property_text m key') ->
  node_text keys n <> node_text keys m.
Proof.
  induction keys as [| k rest IH]; intros Hnodup Hin Hdiff Hsame; [inversion Hin |].
  apply NoDup_cons in Hnodup as [Hk Hrest]. simpl. intros Heq.
  apply append_inv_head, append_inv_head, append_inv_head in Heq.
  destruct (decide (k = key)) as [-> | Hne].
  - assert (Htail : node_text rest n = node_text rest m).
    { apply node_text_agree_text. intros key' Hin'. apply Hsame; [right; exact Hin' |].
      intros ->. contradiction. }
    rewrite Htail in Heq. apply append_inv_tail in Heq. contradiction.
  - rewrite (Hsame k) in Heq by (first [left | exact Hne]).
    apply append_inv_head in Heq. revert Heq. apply IH; [exact Hrest | | exact Hdiff |].
    + apply elem_of_cons in Hin as [-> | Hin]; [contradiction | exact Hin].
    + intros key' Hin' Hne'. apply Hsame; [right; exact Hin' | exact Hne'].
Qed.

(** C2.  Constructing the adapter with the notebook's configuration gives
    every node labelled Task the property [embedding], holding the
    embedding of the text of its [name], [description] and [status]: the
    three values, each on a line of its own behind its key, a missing one
    counting as empty.  The text holds nothing else and tells the three
    apart.  The node's other properties, its labels and all other nodes
    stay as they were.  The lookup then ranges over exactly these Task
    nodes and returns the texts of the [k] nearest to the query. *)
Theorem vector_index_embeds_every_task_node (store : gmap nat (@node V)) :
  let keys := ["name"; "description"; "status"] in
  let llama3 := {| model := "llama3" |} in
  let store' := from_existing_graph embed vector_index store in
  (forall id n,
     store !! id = Some n -> "Task" ∈ labels n ->
     exists n',
       store' !! id = Some n' /\
       labels n' = labels n /\
       properties n' !! "embedding" =
         Some (vector_property (embed llama3 (node_text keys n))) /\
       forall key, key <> "embedding" -> properties n' !! key = properties n !! key) /\
  (forall id n, store !! id = Some n -> "Task" ∉ labels n -> store' !! id = Some n) /\
  (forall id, store !! id = None -> store' !! id = None) /\
  (forall n m : @node V,
     (forall key, key ∈ keys -> properties n !! key = properties m !! key) ->
     node_text keys n = node_text keys m) /\
  (forall id n,
     store !! id = Some n -> "Task" ∈ labels n ->
     (embed llama3 (node_text keys n), node_text keys n) ∈ candidates vector_index store') /\
  (forall c,
     c ∈ candidates vector_index store' ->
     exists id n,
       store !! id = Some n /\ "Task" ∈ labels n /\
       c = (embed llama3 (node_text keys n), node_text keys n)) /\
  (forall query k,
     let found := similarity_search embed distance vector_index store' query k in
     let nearest := ranked embed distance vector_index store' query in
     found = map snd (take k nearest) /\
     length found = min k (length (candidates vector_index store')) /\
     nearest ≡ₚ candidates vector_index store' /\
     StronglySorted (closer distance (embed llama3 query)) nearest) /\
  (forall id n a b c,
     store !! id = Some n -> "Task" ∈ labels n ->
     properties n !! "name" = Some (text_property a) ->
     properties n !! "description" = Some (text_property b) ->
     properties n !! "status" = Some (text_property c) ->
     exists n',
       store' !! id = Some n' /\
       properties n' !! "embedding" =
         Some (vector_property
                 (embed llama3
                    (newline +:+ "name: " +:+ a +:+
                     newline +:+ "description: " +:+ b +:+
                     newline +:+ "status: " +:+ c)))) /\
  (forall n : @node V,
     node_text keys n =
       newline +:+ "name: " +:+ property_text n "name" +:+
       newline +:+ "description: " +:+ property_text n "description" +:+
       newline +:+ "status: " +:+ property_text n "status") /\
  (forall (n : @node V) key s,
     properties n !! key = Some (text_property s) -> property_text n key = s) /\
  (forall (n : @node V) key,
     (forall s, properties n !! key <> Some (text_property s)) ->
     property_text n key = EmptyString) /\
  (forall (n m : @node V) key,
     key ∈ keys ->
     property_text n key <> property_text m key ->
     (forall key', key' ∈ keys -> key' <> key ->
                   property_text n key' = property_text m key') ->
     node_text keys n <> node_text keys m).
Proof.
  intros keys llama3 store'.
  assert (Htext : forall n : @node V,
     node_text keys n =
       newline +:+ "name: " +:+ property_text n "name" +:+
       newline +:+ "description: " +:+ property_text n "description" +:+
       newline +:+ "status: " +:+ property_text n "status").
  { intros n. unfold keys. cbn [node_text]. rewrite append_empty_r. reflexivity. }
  assert (Hpin : forall (n : @node V) key s,
     properties n !! key = Some (text_property s) -> property_text n key = s).
  { intros n key s Hs. unfold property_text. rewrite Hs. reflexivity. }
  assert (Hfresh : embedding_node_property vector_index ∉ text_node_properties vector_index).
  { simpl. intros Hin. repeat (apply elem_of_cons in Hin as [Hin | Hin]; [discriminate |]).
    inversion Hin. }
  assert (Hlook : forall id, store' !! id = embed_node embed vector_index <$> store !! id).
  { intros id. unfold store', from_existing_graph. apply lookup_fmap. }
  split; [| split; [| split; [| split; [| split; [| split; [| split; [| split;
    [| split; [| split; [| split]]]]]]]]]].
  - intros id n Hid Hl. exists (embed_node embed vector_index n).
    rewrite Hlook, Hid. split; [reflexivity |].
    split; [apply labels_embed_node |]. split.
    + unfold embed_node. rewrite decide_True by exact Hl. simpl.
      apply lookup_insert_eq.
    + intros key Hne. apply properties_embed_node_other. exact Hne.
  - intros id n Hid Hl. rewrite Hlook, Hid. simpl. f_equal.
    unfold embed_node. rewrite decide_False by exact Hl. reflexivity.
  - intros id Hid. rewrite Hlook, Hid. reflexivity.
  - intros n m. apply node_text_agree.
  - intros id n Hid Hl. unfold candidates. apply list_elem_of_omap.
    exists (embed_node embed vector_index n). split.
    + apply list_elem_of_fmap. exists (id, embed_node embed vector_index n).
      split; [reflexivity |]. apply elem_of_map_to_list. rewrite Hlook, Hid. reflexivity.
    + rewrite indexed_embed_node by exact Hfresh.
      rewrite decide_True by exact Hl. reflexivity.
  - intros c Hc. unfold candidates in Hc.
    apply list_elem_of_omap in Hc as (n' & Hn' & Hidx).
    apply list_elem_of_fmap in Hn' as ([id n''] & -> & Hin).
    apply elem_of_map_to_list in Hin. rewrite Hlook in Hin. simpl in Hidx.
    destruct (store !! id) as [n |] eqn:Hid; [| discriminate Hin].
    injection Hin as <-. rewrite indexed_embed_node in Hidx by exact Hfresh.
    case_decide as Hl; [| discriminate Hidx]. injection Hidx as <-.
    exists id, n. auto.
  - intros query k found nearest. split; [reflexivity |].
    assert (Hperm : nearest ≡ₚ candidates vector_index store').
    { apply merge_sort_Permutation. }
    split; [| split].
    + unfold found, similarity_search. rewrite length_map, length_take.
      fold nearest. rewrite (Permutation_length Hperm). reflexivity.
    + exact Hperm.
    + apply (StronglySorted_merge_sort _).
  - intros id n a b c Hid Hl Ha Hb Hc. exists (embed_node embed vector_index n).
    rewrite Hlook, Hid. split; [reflexivity |].
    unfold embed_node. rewrite decide_True by exact Hl. simpl.
    rewrite lookup_insert_eq. do 3 f_equal.
    rewrite (Hpin n "name" a Ha), (Hpin n "description" b Hb), (Hpin n "status" c Hc).
    rewrite append_empty_r. reflexivity.
  - exact Htext.
  - exact Hpin.
  - intros n key Hnone. unfold property_text.
    destruct (properties n !! key) as [[s | v] |]; try reflexivity.
    destruct (Hnone s eq_refl).
  - intros n m key Hin Hdiff Hsame.
    apply (node_text_differs keys n m key); try assumption.
    unfold keys. repeat (apply NoDup_cons; split;
      [intros H; repeat (apply elem_of_cons in H as [H | H]; [discriminate H |]);
       inversion H |]).
    apply NoDup_nil_2.
Qed.

End VectorIndex.

(** ** Order and provenance along a run *)

Section HistoryFacts.
Context {W C : Type}.
Variable respond : W -> C -> result pyval * W.

(** Whatever precedes a call in a trace was answered, and the call
    satisfies the rule against it. *)
Lemma after_sound {A : Type} (R : list (C * pyval) -> C -> Prop)
    (Q : list (C * pyval) -> A -> Prop) (h : list (C * pyval)) (p : prog C A) :
  after R Q h p ->
  forall w earlier c a later,
    trace (run respond p w) = earlier ++ (c, a) :: later ->
    exists h', extends h' h /\ replay h' = replay h ++ earlier /\ R h' c.
Proof.
  intros Hp. induction Hp as [h a0 _ | h e | h c0 k HR _ IH];
    intros w earlier c a later Ht; simpl in Ht.
  - destruct earlier; discriminate Ht.
  - destruct earlier; discriminate Ht.
  - assert (Hhere : earlier = [] -> c = c0 ->
              exists h', extends h' h /\ replay h' = replay h ++ earlier /\ R h' c).
    { intros -> ->. exists h. split; [exists []; reflexivity |].
      split; [symmetry; apply app_nil_r | exact HR]. }
    destruct (respond w c0) as [[v | e] w1]; simpl in Ht.
    + destruct earlier as [| x earlier]; simpl in Ht.
      * injection Ht as <- _ _. apply Hhere; reflexivity.
      * injection Ht as Hx Ht. subst x.
        destruct (IH v w1 earlier c a later Ht) as (h' & [more ->] & Hrep & HR').
        exists (more ++ (c0, v) :: h). split.
        -- exists (more ++ [(c0, v)]). rewrite <- app_assoc. reflexivity.
        -- split; [| exact HR']. rewrite Hrep. unfold replay.
           rewrite reverse_cons, map_app, <- app_assoc. reflexivity.
    + destruct earlier as [| x [| y earlier]]; try discriminate Ht.
      injection Ht as <- _ _. apply Hhere; reflexivity.
Qed.

Lemma after_bind {A B : Type} (R : list (C * pyval) -> C -> Prop)
    (Q : list (C * pyval) -> A -> Prop) (Q' : list (C * pyval) -> B -> Prop)
    (h : list (C * pyval)) (p : prog C A) (k : A -> prog C B) :
  after R Q h p ->
  (forall a h', Q h' a -> after R Q' h' (k a)) ->
  after R Q' h (prog_bind k p).
Proof.
  intros Hp Hk. induction Hp as [h a Hq | h e | h c k' HR _ IH]; simpl.
  - apply Hk, Hq.
  - constructor.
  - constructor; [exact HR |]. intros v. apply IH.
Qed.

Lemma after_lift_bind {A B : Type} (R : list (C * pyval) -> C -> Prop)
    (Q : list (C * pyval) -> B -> Prop) (h : list (C * pyval))
    (r : result A) (k : A -> prog C B) :
  (forall a, r = Returned a -> after R Q h (k a)) ->
  after R Q h (prog_bind k (lift r)).
Proof. intros Hk. destruct r as [a | e]; [apply Hk; reflexivity | constructor]. Qed.

Lemma after_lift_bind2 {A B D : Type} (R : list (C * pyval) -> C -> Prop)
    (Q : list (C * pyval) -> D -> Prop) (h : list (C * pyval))
    (r : result A) (k : A -> prog C B) (k' : B -> prog C D) :
  (forall a, r = Returned a -> after R Q h (prog_bind k' (k a))) ->
  after R Q h (prog_bind k' (prog_bind k (lift r))).
Proof. intros Hk. destruct r as [a | e]; [apply Hk; reflexivity | constructor]. Qed.

Lemma after_for_each (R : list (C * pyval) -> C -> Prop)
    (I : list (C * pyval) -> Prop) (items : list pyval)
    (body : pyval -> prog C unit) :
  (forall i h', i ∈ items -> I h' -> after R (fun h'' _ => I h'') h' (body i)) ->
  forall h, I h -> after R (fun h'' _ => I h'') h (for_each items body).
Proof.
  induction items as [| i rest IH]; intros Hbody h Hh; simpl.
  - constructor. exact Hh.
  - eapply after_bind.
    + apply Hbody; [left | exact Hh].
    + intros a h' Hh'. apply IH; [| exact Hh'].
      intros j h'' Hj. apply Hbody. right. exact Hj.
Qed.

Lemma extends_refl (h : list (C * pyval)) : extends h h.
Proof. exists []. reflexivity. Qed.

Lemma extends_cons (h' h : list (C * pyval)) x : extends h' h -> extends (x :: h') h.
Proof. intros [more ->]. exists (x :: more). reflexivity. Qed.

(** An answered call of the history reached is an earlier entry of the
    trace. *)
Lemma replay_elem (h : list (C * pyval)) c v :
  (c, v) ∈ h -> (c, Returned v) ∈ replay h.
Proof.
  intros Hin. unfold replay. apply list_elem_of_fmap. exists (c, v).
  split; [reflexivity |]. apply elem_of_reverse. exact Hin.
Qed.

Lemma replay_cons (h : list (C * pyval)) c v :
  replay ((c, v) :: h) = replay h ++ [(c, Returned v)].
Proof. unfold replay. rewrite reverse_cons, map_app. reflexivity. Qed.

Lemma replay_app (h1 h2 : list (C * pyval)) : replay (h1 ++ h2) = replay h2 ++ replay h1.
Proof. unfold replay. rewrite reverse_app, map_app. reflexivity. Qed.

(** Exceptions of a run: a call's, which is then the last entry of the
    trace, or one the program raised itself after the calls of the trace
    had all returned. *)
Lemma raises_sound {A : Type} (E : list (C * pyval) -> exn -> Prop)
    (Q : list (C * pyval) -> A -> Prop) (h : list (C * pyval)) (p : prog C A) :
  raises E Q h p ->
  forall w e,
    outcome (run respond p w) = Raised e ->
    (exists earlier c, trace (run respond p w) = earlier ++ [(c, Raised e)]) \/
    (exists h', replay h' = replay h ++ trace (run respond p w) /\ E h' e).
Proof.
  intros Hp. induction Hp as [h a _ | h e' He | h c k _ IH]; intros w e Ho; simpl in *.
  - discriminate Ho.
  - injection Ho as ->. right. exists h. split; [symmetry; apply app_nil_r | exact He].
  - destruct (respond w c) as [[v | e'] w1]; simpl in *.
    + destruct (IH v w1 e Ho) as [(earlier & c' & Ht) | (h' & Hrep & He)].
      * left. exists ((c, Returned v) :: earlier), c'. rewrite Ht. reflexivity.
      * right. exists h'. split; [| exact He].
        rewrite Hrep, replay_cons, <- app_assoc. reflexivity.
    + injection Ho as ->. left. exists [], c. reflexivity.
Qed.

Lemma raises_bind {A B : Type} (E : list (C * pyval) -> exn -> Prop)
    (Q : list (C * pyval) -> A -> Prop) (Q' : list (C * pyval) -> B -> Prop)
    (h : list (C * pyval)) (p : prog C A) (k : A -> prog C B) :
  raises E Q h p ->
  (forall a h', Q h' a -> raises E Q' h' (k a)) ->
  raises E Q' h (prog_bind k p).
Proof.
  intros Hp Hk. induction Hp as [h a Hq | h e He | h c k' _ IH]; simpl.
  - apply Hk, Hq.
  - constructor. exact He.
  - constructor. intros v. apply IH.
Qed.

Lemma raises_lift_bind {A B : Type} (E : list (C * pyval) -> exn -> Prop)
    (Q : list (C * pyval) -> B -> Prop) (h : list (C * pyval))
    (r : result A) (k : A -> prog C B) :
  (forall e, r = Raised e -> E h e) ->
  (forall a, r = Returned a -> raises E Q h (k a)) ->
  raises E Q h (prog_bind k (lift r)).
Proof.
  intros He Hk. destruct r as [a | e]; [apply Hk; reflexivity |].
  constructor. apply He. reflexivity.
Qed.

Lemma raises_lift_bind2 {A B D : Type} (E : list (C * pyval) -> exn -> Prop)
    (Q : list (C * pyval) -> D -> Prop) (h : list (C * pyval))
    (r : result A) (k : A -> prog C B) (k' : B -> prog C D) :
  (forall e, r = Raised e -> E h e) ->
  (forall a, r = Returned a -> raises E Q h (prog_bind k' (k a))) ->
  raises E Q h (prog_bind k' (prog_bind k (lift r))).
Proof.
  intros He Hk. destruct r as [a | e]; [apply Hk; reflexivity |].
  constructor. apply He. reflexivity.
Qed.

Lemma raises_for_each (E : list (C * pyval) -> exn -> Prop)
    (I : list (C * pyval) -> Prop) (items : list pyval)
    (body : pyval -> prog C unit) :
  (forall i h', i ∈ items -> I h' -> raises E (fun h'' _ => I h'') h' (body i)) ->
  forall h, I h -> raises E (fun h'' _ => I h'') h (for_each items body).
Proof.
  induction items as [| i rest IH]; intros Hbody h Hh; simpl.
  - constructor. exact Hh.
  - eapply raises_bind.
    + apply Hbody; [left | exact Hh].
    + intros a h' Hh'. apply IH; [| exact Hh'].
      intros j h'' Hj. apply Hbody. right. exact Hj.
Qed.

End HistoryFacts.

Lemma getitem_raised (x : pyval) (key : string) (e : exn) :
  getitem x key = Raised e -> e = KeyError key \/ exists msg, e = TypeError msg.
Proof.
  destruct x; simpl; try (intros [= <-]; right; eexists; reflexivity).
  destruct (assoc key d); [discriminate | intros [= <-]; left; reflexivity].
Qed.

Lemma getattr_raised (x : pyval) (name : string) (e : exn) :
  getattr x name = Raised e -> e = AttributeError name.
Proof.
  destruct x; simpl; try (intros [= <-]; reflexivity).
  destruct (assoc name attrs); [discriminate | intros [= <-]; reflexivity].
Qed.

Lemma iter_raised (x : pyval) (e : exn) :
  iter x = Raised e -> exists msg, e = TypeError msg.
Proof. destruct x; simpl; try discriminate; intros [= <-]; eexists; reflexivity. Qed.

Ltac in_history :=
  solve [ repeat first
    [ apply list_elem_of_here
    | apply list_elem_of_further
    | (apply elem_of_app; right) ] ].

Ltac after_walk solveR :=
  repeat (simpl; first
    [ (apply after_return; exact I)
    | apply after_throw
    | (apply after_call; [solveR | intros ?])
    | (apply after_lift_bind2; intros ? ?)
    | (apply after_lift_bind; intros ? ?) ]).

(** The printing loop inside a longer script: the calls before it stay
    answered, whatever the loop prints. *)
Ltac after_loop solveR :=
  match goal with
  | |- after _ _ ?h (prog_bind _ (for_each _ _)) =>
      apply (after_bind _ (fun h'' (_ : unit) => extends h'' h));
      [ apply after_for_each; [| apply extends_refl];
        intros ? ? ? [? ->];
        repeat (simpl; first
          [ (apply after_return; apply extends_cons; eexists; reflexivity)
          | apply after_throw
          | (apply after_call; [solveR | intros ?])
          | (apply after_lift_bind; intros ? ?) ])
      | intros ? ? [? ->] ]
  end.

Section Order.
Context {W : Type}.
Variable respond : W -> call -> result pyval * W.

Lemma after_built_notebook :
  after (fun h c => forall o, o ∈ uses c -> exists v, (construct o, v) ∈ h)
        (fun _ _ => True) [] notebook.
Proof.
  unfold notebook, connect, load_dataset, after_loading.
  after_walk ltac:(simpl; intros o Ho;
                   repeat (apply elem_of_cons in Ho as [-> | Ho]; [eexists; in_history |]);
                   inversion Ho).
  after_loop ltac:(simpl; intros o Ho; inversion Ho).
  after_walk ltac:(simpl; intros o Ho;
                   repeat (apply elem_of_cons in Ho as [-> | Ho]; [eexists; in_history |]);
                   inversion Ho).
Qed.

(** X1.  No object is used before it is built: whenever a call of a run is
    made on an object or is given one (a query on the graph client, an
    invocation of a chain or of the executor, a constructor taking a
    client, a retriever, a chain, tools or an agent), the constructor call
    for that object was made earlier in the run and had returned. *)
Theorem objects_are_built_before_use (w : W) earlier c a later (o : object) :
  trace (run respond notebook w) = earlier ++ (c, a) :: later ->
  o ∈ uses c ->
  exists v, (construct o, Returned v) ∈ earlier.
Proof.
  intros Ht Ho.
  destruct (after_sound respond _ _ [] notebook after_built_notebook
              w earlier c a later Ht) as (h' & _ & Hrep & HR).
  destruct (HR o Ho) as [v Hv]. exists v.
  change (replay [] ++ earlier) with earlier in Hrep. rewrite <- Hrep.
  apply replay_elem, Hv.
Qed.

Lemma after_key_notebook :
  after (fun h c => needs_api_key c = true ->
                    exists v, (environ_setitem "GROQ_API_KEY" groq_api_key, v) ∈ h)
        (fun _ _ => True) [] notebook.
Proof.
  unfold notebook, connect, load_dataset, after_loading.
  after_walk ltac:(simpl; intros Hk; first [discriminate Hk | (eexists; in_history)]).
  after_loop ltac:(simpl; intros Hk; discriminate Hk).
  after_walk ltac:(simpl; intros Hk; first [discriminate Hk | (eexists; in_history)]).
Qed.

(** X2.  The Groq API key is put into the environment before anything can
    reach the hosted model: every construction of a language-model client
    and every invocation of a chain or of the agent executor comes after
    the assignment to [os.environ['GROQ_API_KEY']] has been made. *)
Theorem api_key_is_set_before_the_model_is_reached (w : W) earlier c a later :
  trace (run respond notebook w) = earlier ++ (c, a) :: later ->
  needs_api_key c = true ->
  exists v, (environ_setitem "GROQ_API_KEY" groq_api_key, Returned v) ∈ earlier.
Proof.
  intros Ht Hk.
  destruct (after_sound respond _ _ [] notebook after_key_notebook
              w earlier c a later Ht) as (h' & _ & Hrep & HR).
  destruct (HR Hk) as [v Hv]. exists v.
  change (replay [] ++ earlier) with earlier in Hrep. rewrite <- Hrep.
  apply replay_elem, Hv.
Qed.

Lemma after_loaded_notebook :
  after (fun h c => touches_graph c = true ->
           exists response doc q,
             (requests_get import_url, response) ∈ h /\
             (response_json response, doc) ∈ h /\
             getitem doc "query" = Returned q /\
             (c = graph_query graph q \/ exists v, (graph_query graph q, v) ∈ h))
        (fun _ _ => True) [] notebook.
Proof.
  unfold notebook, connect, load_dataset, after_loading.
  after_walk ltac:(simpl; intros Hr;
    first [ discriminate Hr
          | (do 3 eexists; split; [in_history |]; split; [in_history |];
             split; [eassumption |];
             first [ left; reflexivity | right; eexists; in_history ]) ]).
  after_loop ltac:(simpl; intros Hr; discriminate Hr).
  after_walk ltac:(simpl; intros Hr;
    first [ discriminate Hr
          | (do 3 eexists; split; [in_history |]; split; [in_history |];
             split; [eassumption |];
             first [ left; reflexivity | right; eexists; in_history ]) ]).
Qed.

(** X3.  Nothing touches the data of the graph before the dataset is in
    it.  A direct query is either the load itself, carrying the [query]
    value of the document fetched and decoded before it, or it is made
    after that load returned; and the vector index construction, the
    similarity search, the schema refresh and every chain or agent
    invocation are made only after the load returned.  A load that fails
    stops the run before any embedding is computed. *)
Theorem graph_is_loaded_before_it_is_read (w : W) earlier c a later :
  trace (run respond notebook w) = earlier ++ (c, a) :: later ->
  touches_graph c = true ->
  exists response doc q,
    (requests_get import_url, Returned response) ∈ earlier /\
    (response_json response, Returned doc) ∈ earlier /\
    getitem doc "query" = Returned q /\
    (c = graph_query graph q \/
     exists v, (graph_query graph q, Returned v) ∈ earlier).
Proof.
  intros Ht Hr.
  destruct (after_sound respond _ _ [] notebook after_loaded_notebook
              w earlier c a later Ht) as (h' & _ & Hrep & HR).
  destruct (HR Hr) as (response & doc & q & H1 & H2 & H3 & H4).
  change (replay [] ++ earlier) with earlier in Hrep. rewrite <- Hrep.
  exists response, doc, q.
  split; [apply replay_elem, H1 |]. split; [apply replay_elem, H2 |].
  split; [exact H3 |].
  destruct H4 as [-> | [v Hv]]; [left; reflexivity | right].
  exists v. apply replay_elem, Hv.
Qed.

Lemma after_printed_notebook :
  after (fun h c => forall args, c = print args ->
           (exists response items i page_content,
              (similarity_search vector_index
                 "How will RecommendationService be updated?", response) ∈ h /\
              iter response = Returned items /\
              i ∈ items /\
              getattr i "page_content" = Returned page_content /\
              args = [page_content]) \/
           (exists question answer,
              (executor_invoke agent_executor (PDict [("input", PStr question)]),
               answer) ∈ h /\
              args = [PStr "response:"; answer]))
        (fun _ _ => True) [] notebook.
Proof.
  unfold notebook, connect, load_dataset, after_loading.
  after_walk ltac:(simpl; intros args Hc; discriminate Hc).
  after_loop ltac:(simpl; intros args Hc; injection Hc as <-; left;
                   do 4 eexists; split; [in_history |];
                   split; [eassumption |]; split; [eassumption |];
                   split; [eassumption | reflexivity]).
  after_walk ltac:(simpl; intros args Hc;
    first [ discriminate Hc
          | (injection Hc as <-; right; do 2 eexists;
             split; [in_history | reflexivity]) ]).
Qed.

(** X4.  The notebook prints nothing of its own making: every [print] of a
    run shows either the [page_content] of one item of the response the
    similarity search returned, or the label [response:] followed by the
    value an agent invocation returned earlier in the run. *)
Theorem prints_show_search_results_or_agent_responses (w : W) earlier args a later :
  trace (run respond notebook w) = earlier ++ (print args, a) :: later ->
  (exists response items i page_content,
     (similarity_search vector_index "How will RecommendationService be updated?",
      Returned response) ∈ earlier /\
     iter response = Returned items /\
     i ∈ items /\
     getattr i "page_content" = Returned page_content /\
     args = [page_content]) \/
  (exists question answer,
     (executor_invoke agent_executor (PDict [("input", PStr question)]),
      Returned answer) ∈ earlier /\
     args = [PStr "response:"; answer]).
Proof.
  intros Ht.
  destruct (after_sound respond _ _ [] notebook after_printed_notebook
              w earlier (print args) a later Ht) as (h' & _ & Hrep & HR).
  change (replay [] ++ earlier) with earlier in Hrep. rewrite <- Hrep.
  destruct (HR args eq_refl)
    as [(response & items & i & pc & H1 & H2 & H3 & H4 & H5) | (q & answer & H1 & H2)].
  - left. exists response, items, i, pc. auto using replay_elem.
  - right. exists q, answer. auto using replay_elem.
Qed.

Lemma raises_notebook :
  raises (fun h e =>
      (exists response doc h0,
         h = (response_json response, doc) :: h0 /\
         getitem doc "query" = Raised e) \/
      (exists response h0,
         h = (similarity_search vector_index
                "How will RecommendationService be updated?", response) :: h0 /\
         iter response = Raised e) \/
      (exists response items i printed h0,
         h = printed ++
             (similarity_search vector_index
                "How will RecommendationService be updated?", response) :: h0 /\
         iter response = Returned items /\
         i ∈ items /\
         getattr i "page_content" = Raised e /\
         Forall (fun cv => exists args, cv.1 = print args) printed))
    (fun _ _ => True) [] notebook.
Proof.
  unfold notebook, connect, load_dataset, after_loading, print_tasks.
  repeat (simpl; first
    [ (apply raises_return; exact I)
    | (apply raises_call; intros ?)
    | (apply raises_lift_bind2;
       [ intros ? Hraised;
         first [ (left; do 3 eexists; split; [reflexivity | exact Hraised])
               | (right; left; do 2 eexists; split; [reflexivity | exact Hraised]) ]
       | intros ? ? ]) ]).
  match goal with
  | |- raises _ _ ?h (prog_bind _ (for_each _ _)) =>
      apply (raises_bind _
               (fun h'' (_ : unit) =>
                  exists printed, h'' = printed ++ h /\
                    Forall (fun cv => exists args, cv.1 = print args) printed))
  end.
  - apply raises_for_each; [| exists []; split; [reflexivity | constructor]].
    intros i h' Hi (printed & -> & Hprinted).
    apply raises_lift_bind.
    + intros e Hraised. right. right. do 5 eexists.
      split; [reflexivity |]. split; [eassumption |]. split; [exact Hi |].
      split; [exact Hraised | exact Hprinted].
    + intros page_content _. simpl. apply raises_call. intros answer.
      apply raises_return. exists ((print [page_content], answer) :: printed).
      split; [reflexivity |]. constructor; [eexists; reflexivity | exact Hprinted].
  - intros ? ? _.
    repeat (simpl; first
      [ (apply raises_return; exact I)
      | (apply raises_call; intros ?) ]).
Qed.

(** X5.  Once the cells' import statements have succeeded, where the
    embedding starts, a run of the notebook can end in an exception in
    these ways only.  A library call raised it, and then that call is the
    last of the trace.  Or the script raised it itself, at one of three
    places, every call made until then having returned: at the subscript
    of the decoded document, right after the decoding ([KeyError] for
    [query] or [TypeError]); at the [for] statement, right after the
    search ([TypeError]); or in the loop, after the search and the prints
    made so far, at an item of the response without [page_content]
    ([AttributeError]). *)
Theorem exceptions_of_a_run (w : W) (e : exn) :
  let n := run respond notebook w in
  let search :=
    similarity_search vector_index "How will RecommendationService be updated?" in
  outcome n = Raised e ->
  (exists earlier c, trace n = earlier ++ [(c, Raised e)]) \/
  (exists earlier response doc,
     trace n = earlier ++ [(response_json response, Returned doc)] /\
     getitem doc "query" = Raised e /\
     (e = KeyError "query" \/ exists msg, e = TypeError msg)) \/
  (exists earlier response,
     trace n = earlier ++ [(search, Returned response)] /\
     iter response = Raised e /\
     exists msg, e = TypeError msg) \/
  (exists earlier response items i printed,
     trace n = earlier ++ (search, Returned response) :: printed /\
     iter response = Returned items /\
     i ∈ items /\
     getattr i "page_content" = Raised e /\
     e = AttributeError "page_content" /\
     Forall (fun en => exists args v, en = (print args, Returned v)) printed).
Proof.
  intros n search Ho.
  destruct (raises_sound respond _ _ [] notebook raises_notebook w e Ho)
    as [Hcall | (h' & Hrep & HE)]; [left; exact Hcall | right].
  change (replay [] ++ trace (run respond notebook w)) with (trace n) in Hrep.
  destruct HE as [(response & doc & h0 & -> & Hq)
                 | [(response & h0 & -> & Hi)
                   | (response & items & i & printed & h0 & -> & Hi & Hin & Ha & Hp)]].
  - left. exists (replay h0), response, doc.
    rewrite <- Hrep, replay_cons. split; [reflexivity |]. split; [exact Hq |].
    exact (getitem_raised _ _ _ Hq).
  - right. left. exists (replay h0), response.
    rewrite <- Hrep, replay_cons. split; [reflexivity |]. split; [exact Hi |].
    apply iter_raised in Hi. exact Hi.
  - right. right. exists (replay h0), response, items, i, (replay printed).
    rewrite <- Hrep, replay_app, replay_cons, <- app_assoc.
    split; [reflexivity |]. split; [exact Hi |]. split; [exact Hin |].
    split; [exact Ha |]. split; [apply getattr_raised in Ha; exact Ha |].
    unfold replay. apply Forall_fmap, Forall_reverse.
    eapply Forall_impl; [exact Hp |]. intros [c v] [args Hc]. simpl in *.
    subst c. eexists _, _. reflexivity.
Qed.

End Order.

(** ** The printing loop and the loader's subscript *)

Section Cells.
Context {W : Type}.
Variable respond : W -> call -> result pyval * W.

(** The loop over items that all have a [page_content], followed by any
    further items: one print per item, then the run goes on with the
    rest. *)
Lemma run_print_loop (good contents rest : list pyval) :
  Forall2 (fun d c => getattr d "page_content" = Returned c) good contents ->
  (forall w args, exists v w', respond w (print args) = (Returned v, w')) ->
  forall w,
    let body := fun i : pyval =>
      do page_content <- lift (getattr i "page_content");
      do_ ask (print [page_content]);
      Return tt in
    exists w',
      outcome (run respond (for_each (good ++ rest) body) w) =
        outcome (run respond (for_each rest body) w') /\
      calls (trace (run respond (for_each (good ++ rest) body) w)) =
        map (fun c => print [c]) contents ++
        calls (trace (run respond (for_each rest body) w')).
Proof.
  intros Hgood Hprint.
  induction Hgood as [| d c good contents Hd _ IH]; intros w; cbv zeta.
  - exists w. split; reflexivity.
  - destruct (Hprint w [c]) as (v & w1 & Hv).
    destruct (IH w1) as (w' & Ho & Hc).
    exists w'. cbn [app for_each]. rewrite Hd. unfold lift.
    cbn [prog_bind ask run]. rewrite Hv. cbn [outcome trace].
    split; [exact Ho |]. unfold calls in *. cbn [map app fst]. f_equal. exact Hc.
Qed.

(** X6.  The printing loop, given a list whose items all have a
    [page_content], prints exactly these contents, one per call and in the
    order of the list, and returns; an empty list prints nothing. *)
Theorem print_tasks_prints_every_page_content (w : W) (docs contents : list pyval) :
  Forall2 (fun d c => getattr d "page_content" = Returned c) docs contents ->
  (forall w args, exists v w', respond w (print args) = (Returned v, w')) ->
  outcome (run respond (print_tasks (PList docs)) w) = Returned tt /\
  calls (trace (run respond (print_tasks (PList docs)) w)) =
    map (fun c => print [c]) contents.
Proof.
  intros Hdocs Hprint.
  destruct (run_print_loop docs contents [] Hdocs Hprint w) as (w' & Ho & Hc).
  rewrite app_nil_r in Ho, Hc. cbn [for_each run outcome trace calls map] in Ho, Hc.
  rewrite app_nil_r in Hc.
  unfold print_tasks. change (iter (PList docs)) with (Returned docs).
  unfold lift. cbn [prog_bind]. split; assumption.
Qed.

(** X7.  When an item of the list has no [page_content], the loop prints
    the contents of the items before it, raises [AttributeError] for
    [page_content] at that item, and prints nothing of the items after
    it. *)
Theorem print_tasks_stops_at_first_item_without_page_content (w : W)
    (good contents : list pyval) (bad : pyval) (rest : list pyval) :
  Forall2 (fun d c => getattr d "page_content" = Returned c) good contents ->
  (forall c, getattr bad "page_content" <> Returned c) ->
  (forall w args, exists v w', respond w (print args) = (Returned v, w')) ->
  outcome (run respond (print_tasks (PList (good ++ bad :: rest))) w) =
    Raised (AttributeError "page_content") /\
  calls (trace (run respond (print_tasks (PList (good ++ bad :: rest))) w)) =
    map (fun c => print [c]) contents.
Proof.
  intros Hgood Hbad Hprint.
  destruct (run_print_loop good contents (bad :: rest) Hgood Hprint w) as (w' & Ho & Hc).
  assert (Hraise : getattr bad "page_content" = Raised (AttributeError "page_content")).
  { destruct (getattr bad "page_content") as [c | e] eqn:Hg.
    - destruct (Hbad c eq_refl).
    - apply getattr_raised in Hg. subst e. reflexivity. }
  cbn [for_each] in Ho, Hc. rewrite Hraise in Ho, Hc. unfold lift in Ho, Hc.
  cbn [prog_bind run outcome trace calls map] in Ho, Hc. rewrite app_nil_r in Hc.
  unfold print_tasks. change (iter (PList (good ++ bad :: rest)))
    with (Returned (good ++ bad :: rest)).
  unfold lift. cbn [prog_bind]. split; assumption.
Qed.

(** X8.  A response that is not a list is never printed.  [None], a
    boolean and a number cannot be iterated: [TypeError], and no call is
    made.  A string is iterated character by character and a dictionary
    key by key; these items are strings without [page_content], so a
    non-empty one raises [AttributeError] before the first print, and an
    empty one returns at once. *)
Theorem print_tasks_of_a_response_that_is_no_list (w : W) (response : pyval) :
  match response with
  | PList _ | PObj _ _ => True
  | PNone | PBool _ | PInt _ =>
      trace (run respond (print_tasks response) w) = [] /\
      exists msg, outcome (run respond (print_tasks response) w) = Raised (TypeError msg)
  | PStr EmptyString | PDict [] =>
      trace (run respond (print_tasks response) w) = [] /\
      outcome (run respond (print_tasks response) w) = Returned tt
  | PStr _ | PDict _ =>
      trace (run respond (print_tasks response) w) = [] /\
      outcome (run respond (print_tasks response) w) =
        Raised (AttributeError "page_content")
  end.
Proof.
  unfold print_tasks.
  destruct response as [| b | z | s | l | d | cls attrs]; try exact I;
    try (split; [reflexivity | eexists; reflexivity]).
  - destruct s; split; reflexivity.
  - destruct d as [| [k v] d]; split; reflexivity.
Qed.

(** X9.  When the fetch and the decoding succeed but the decoded document
    is a dictionary without the key [query], the loader raises [KeyError]
    for [query]; when the document is no dictionary at all it raises
    [TypeError].  In both cases the run consists of the fetch and the
    decoding only: no query reaches the graph. *)
Theorem load_dataset_without_query (w w1 w2 : W) (response doc : pyval) :
  respond w (requests_get import_url) = (Returned response, w1) ->
  respond w1 (response_json response) = (Returned doc, w2) ->
  (forall q, getitem doc "query" <> Returned q) ->
  let r := run respond load_dataset w in
  trace r = [(requests_get import_url, Returned response);
             (response_json response, Returned doc)] /\
  selected query_of (trace r) = [] /\
  match doc with
  | PDict _ => outcome r = Raised (KeyError "query")
  | _ => exists msg, outcome r = Raised (TypeError msg)
  end.
Proof.
  intros Hfetch Hdecode Hmissing r. subst r. unfold load_dataset.
  cbn [prog_bind ask run]. rewrite Hfetch. cbn [prog_bind ask run]. rewrite Hdecode.
  destruct (getitem doc "query") as [q | e] eqn:Hq; [destruct (Hmissing q eq_refl) |].
  unfold lift. cbn [prog_bind run outcome trace].
  split; [reflexivity |]. split; [reflexivity |].
  destruct doc; simpl in Hq; try (injection Hq as <-; eexists; reflexivity).
  destruct (assoc "query" d); [discriminate Hq | injection Hq as <-; reflexivity].
Qed.

End Cells.

End Notebook.

(** * Concrete runs *)

(** C5 at a concrete run: with no network the loader's fetch raises, and
    the cell raises the same exception right there. *)
Lemma failures_propagate_unchanged_offline :
  let op := load_dataset source_url source_password in
  let fetch := requests_get import_url in
  let e := LibraryError "connection refused" in
  no_handler op /\
  outcome (run offline_respond op tt) = Raised e /\
  exists earlier,
    trace (run offline_respond op tt) = earlier ++ [(fetch, Raised e)] /\
    Forall (fun en => exists v, en.2 = Returned v) earlier.
Proof.
  intros op fetch e.
  apply (failures_propagate_unchanged source_url source_password source_groq_api_key
           offline_respond tt PNone op fetch e).
  - right. right. left.
  - left.
Defined.

(** C1 as first stated does not hold: the fetched content is not what is
    submitted.  In the sample world the decoded document has two keys, and
    the query submitted is the value of one of them, neither the response
    nor the document. *)
Lemma loader_does_not_submit_the_fetched_document :
  ~ (forall (respond : unit -> call -> result pyval * unit) response doc g q,
       let r := run respond (load_dataset source_url source_password) tt in
       (requests_get import_url, Returned response) ∈ trace r ->
       (response_json response, Returned doc) ∈ trace r ->
       (g, q) ∈ selected query_of (trace r) ->
       q = response \/ q = doc).
Proof.
  intros H.
  specialize (H sample_respond sample_response sample_document
                (graph source_url source_password)
                (PStr "CREATE (t:Task {name: 'Update'})")).
  cbv zeta in H.
  assert (Hq : PStr "CREATE (t:Task {name: 'Update'})" = sample_response \/
               PStr "CREATE (t:Task {name: 'Update'})" = sample_document).
  { apply H; [left | right; left | left]. }
  destruct Hq as [Hq | Hq]; discriminate Hq.
Qed.


(** C7 as first stated does not hold: a complete run builds one vector
    index configuration, not two. *)
Lemma notebook_builds_one_vector_configuration :
  let n := run sample_respond
             (notebook source_url source_password source_groq_api_key) tt in
  outcome n = Returned tt /\
  selected vector_of (trace n) = [vector_index source_url source_password] /\
  length (selected vector_of (trace n)) <> 2.
Proof. vm_compute. repeat split. discriminate. Qed.

(** A model that never settles is cut off after two rounds. *)
Example undecided_agent_is_stopped :
  let r := run undecided_respond
             (agent_executor_invoke sample_parse PNone
                (agent_executor source_url source_password) (PStr "Who?")) tt in
  selected round_of (trace r) = [0; 1] /\
  length (trace r) = 8 /\
  outcome r = Returned (PDict [("input", PStr "Who?"); ("output", stopped)]).
Proof. vm_compute. repeat split. Qed.

(** A model that settles after one observation ends the run there. *)
Example decided_agent_answers :
  let r := run decided_respond
             (agent_executor_invoke sample_parse PNone
                (agent_executor source_url source_password) (PStr "Who?")) tt in
  selected round_of (trace r) = [0; 1] /\
  length (trace r) = 5 /\
  outcome r = Returned (PDict [("input", PStr "Who?");
                ("output", PStr "TeamD is assigned to maintain PaymentService.")]).
Proof. vm_compute. repeat split. Qed.

(** In the sample store the task gets its embedding, the team does not,
    and a lookup returns the task's text. *)
Example sample_store_is_embedded :
  let v := vector_index source_url source_password in
  let store' := Index.from_existing_graph sample_embed v sample_store in
  (n ← store' !! 1; Index.properties n !! "embedding") =
    Some (Index.vector_property 40) /\
  (n ← store' !! 2; Index.properties n !! "embedding") = None /\
  length (Index.similarity_search sample_embed sample_distance v store' "open tasks" 4) = 1.
Proof. vm_compute. repeat split. Qed.

(** X1 at a concrete run: the first invocation of the retrieval chain comes
    after the chain was built. *)
Lemma objects_are_built_before_use_sample :
  let tr := trace (run sample_respond
                     (notebook source_url source_password source_groq_api_key) tt) in
  exists v,
    (construct (chain_object (retrieval_chain (vector_qa source_url source_password))),
     Returned v) ∈ take 12 tr.
Proof.
  intros tr.
  apply (objects_are_built_before_use source_url source_password source_groq_api_key
           sample_respond tt (take 12 tr)
           (chain_invoke (retrieval_chain (vector_qa source_url source_password))
              (PDict [("query", PStr "How will recommendation service be updated?")]))
           (Returned PNone) (drop 13 tr)).
  - vm_compute. reflexivity.
  - left.
Defined.

(** X2 at a concrete run: the same invocation comes after the key was set. *)
Lemma api_key_is_set_before_the_model_is_reached_sample :
  let tr := trace (run sample_respond
                     (notebook source_url source_password source_groq_api_key) tt) in
  exists v, (environ_setitem "GROQ_API_KEY" source_groq_api_key, Returned v) ∈ take 12 tr.
Proof.
  intros tr.
  apply (api_key_is_set_before_the_model_is_reached
           source_url source_password source_groq_api_key
           sample_respond tt (take 12 tr)
           (chain_invoke (retrieval_chain (vector_qa source_url source_password))
              (PDict [("query", PStr "How will recommendation service be updated?")]))
           (Returned PNone) (drop 13 tr)).
  - vm_compute. reflexivity.
  - reflexivity.
Defined.

(** X3 at a concrete run: the counting query is made after the load. *)
Lemma graph_is_loaded_before_it_is_read_sample :
  let tr := trace (run sample_respond
                     (notebook source_url source_password source_groq_api_key) tt) in
  let counting := graph_query (graph source_url source_password) count_query in
  exists response doc q,
    (requests_get import_url, Returned response) ∈ take 14 tr /\
    (response_json response, Returned doc) ∈ take 14 tr /\
    getitem doc "query" = Returned q /\
    (counting = graph_query (graph source_url source_password) q \/
     exists v, (graph_query (graph source_url source_password) q, Returned v) ∈ take 14 tr).
Proof.
  intros tr counting.
  apply (graph_is_loaded_before_it_is_read source_url source_password source_groq_api_key
           sample_respond tt (take 14 tr) counting (Returned PNone) (drop 15 tr)).
  - vm_compute. reflexivity.
  - reflexivity.
Defined.

(** X4 at a concrete run: the first print shows the document found. *)
Lemma prints_show_search_results_or_agent_responses_sample :
  let tr := trace (run sample_respond
                     (notebook source_url source_password source_groq_api_key) tt) in
  (exists response items i page_content,
     (similarity_search (vector_index source_url source_password)
        "How will RecommendationService be updated?", Returned response) ∈ take 7 tr /\
     iter response = Returned items /\
     i ∈ items /\
     getattr i "page_content" = Returned page_content /\
     [PStr "name: Update"] = [page_content]) \/
  (exists question answer,
     (executor_invoke (agent_executor source_url source_password)
        (PDict [("input", PStr question)]), Returned answer) ∈ take 7 tr /\
     [PStr "name: Update"] = [PStr "response:"; answer]).
Proof.
  intros tr.
  apply (prints_show_search_results_or_agent_responses
           source_url source_password source_groq_api_key
           sample_respond tt (take 7 tr) [PStr "name: Update"]
           (Returned PNone) (drop 8 tr)).
  vm_compute. reflexivity.
Defined.

(** X5 at a concrete run: without network the run ends in the fetch's
    exception, at the fetch. *)
Lemma exceptions_of_a_run_offline :
  let n := run offline_respond
             (notebook source_url source_password source_groq_api_key) tt in
  let search :=
    similarity_search (vector_index source_url source_password)
      "How will RecommendationService be updated?" in
  let e := LibraryError "connection refused" in
  (exists earlier c, trace n = earlier ++ [(c, Raised e)]) \/
  (exists earlier response doc,
     trace n = earlier ++ [(response_json response, Returned doc)] /\
     getitem doc "query" = Raised e /\
     (e = KeyError "query" \/ exists msg, e = TypeError msg)) \/
  (exists earlier response,
     trace n = earlier ++ [(search, Returned response)] /\
     iter response = Raised e /\
     exists msg, e = TypeError msg) \/
  (exists earlier response items i printed,
     trace n = earlier ++ (search, Returned response) :: printed /\
     iter response = Returned items /\
     i ∈ items /\
     getattr i "page_content" = Raised e /\
     e = AttributeError "page_content" /\
     Forall (fun en => exists args v, en = (print args, Returned v)) printed).
Proof.
  intros n search e.
  apply (exceptions_of_a_run source_url source_password source_groq_api_key
           offline_respond tt e).
  reflexivity.
Defined.

(** X6 at a concrete run: two documents, two prints. *)
Lemma print_tasks_prints_every_page_content_sample :
  let docs := [PObj "Document" [("page_content", PStr "name: Update")];
               PObj "Document" [("page_content", PStr "name: Refactor")]] in
  outcome (run sample_respond (print_tasks (PList docs)) tt) = Returned tt /\
  calls (trace (run sample_respond (print_tasks (PList docs)) tt)) =
    map (fun c => print [c]) [PStr "name: Update"; PStr "name: Refactor"].
Proof.
  intros docs.
  apply (print_tasks_prints_every_page_content sample_respond tt docs
           [PStr "name: Update"; PStr "name: Refactor"]).
  - repeat constructor.
  - intros w args. eexists. eexists. reflexivity.
Defined.

(** X7 at a concrete run: the second item is a bare string. *)
Lemma print_tasks_stops_at_first_item_without_page_content_sample :
  let good := [PObj "Document" [("page_content", PStr "name: Update")]] in
  let rest := [PObj "Document" [("page_content", PStr "name: Refactor")]] in
  outcome (run sample_respond (print_tasks (PList (good ++ PStr "Update" :: rest))) tt) =
    Raised (AttributeError "page_content") /\
  calls (trace (run sample_respond
                  (print_tasks (PList (good ++ PStr "Update" :: rest))) tt)) =
    map (fun c => print [c]) [PStr "name: Update"].
Proof.
  intros good rest.
  apply (print_tasks_stops_at_first_item_without_page_content sample_respond tt good
           [PStr "name: Update"] (PStr "Update") rest).
  - repeat constructor.
  - intros c Hc. discriminate Hc.
  - intros w args. eexists. eexists. reflexivity.
Defined.

(** X9 at a concrete run: the decoded document has a note and no query. *)
Lemma load_dataset_without_query_sample :
  let r := run keyless_respond (load_dataset source_url source_password) tt in
  trace r = [(requests_get import_url, Returned sample_response);
             (response_json sample_response, Returned (PDict [("note", PStr "sample")]))] /\
  selected query_of (trace r) = [] /\
  outcome r = Raised (KeyError "query").
Proof.
  apply (load_dataset_without_query source_url source_password keyless_respond
           tt tt tt sample_response (PDict [("note", PStr "sample")])).
  - reflexivity.
  - reflexivity.
  - intros q Hq. discriminate Hq.
Defined.


(** Were a cell to fetch under a handler, the failure would not reach the
    caller: the handler-free cells above are what C5 rests on. *)
Example a_handler_would_swallow_the_failure :
  let guarded : prog call unit :=
    Try (ask (requests_get import_url)) (fun _ => Return PNone) (fun _ => Return tt) in
  (requests_get import_url, Raised (LibraryError "connection refused"))
    ∈ trace (run offline_respond guarded tt) /\
  outcome (run offline_respond guarded tt) = Returned tt.
Proof. split; [left | reflexivity]. Qed.
